(** * gin-logger: the aggregation engine of the request logger

    A shallow embedding of [aggregator.go], [printlog.go], the relevant part
    of [config.go] and of the middleware file (the [Logger] type, [New],
    [Middleware], [buildLogEntry], [send]) together with the request helpers
    they call, followed by the properties of the aggregation engine.

    Conventions.
    - Go's [int] and [time.Duration] are 64-bit two's-complement integers:
      they are values of [Z] and every arithmetic result is passed through
      [wrap64].
    - [map[string]T] is [gmap string T]; a nil map and an empty map are the
      same value here, since the code only ranges over them and tests
      [len(m) > 0].  Go leaves the iteration order of a map unspecified; the
      model ranges in the order of [map_to_list], and no statement below
      depends on that order.
    - A run-time panic is the result [None].
    - Functions of the Go standard library and of gin that the code calls
      are the fields of the class [External]. *)

From Stdlib Require Import ZArith QArith Ascii String List DecimalString Lia.
From stdpp Require Import base option list strings gmap fin_maps.
From Stdlib Require DecimalPos DecimalZ.

Local Open Scope string_scope.
Local Open Scope list_scope.
Local Open Scope Z_scope.

(** ** Machine integers *)

Definition int64_min : Z := - 2 ^ 63.
Definition int64_max : Z := 2 ^ 63 - 1.

(** Two's-complement wrap-around of a mathematical integer to 64 bits. *)
Definition wrap64 (z : Z) : Z := (z + 2 ^ 63) mod 2 ^ 64 - 2 ^ 63.

Definition in_int64 (z : Z) : Prop := int64_min <= z <= int64_max.

(** Go's [x / y] on signed 64-bit integers: a panic when [y] is zero,
    truncation toward zero otherwise. *)
Definition go_div (x y : Z) : option Z :=
  if Z.eqb y 0 then None else Some (wrap64 (Z.quot x y)).

(** [strconv.Itoa]. *)
Definition Itoa (z : Z) : string := NilZero.string_of_int (Z.to_int z).

(** ** Time *)

(** An instant, in nanoseconds since the zero [time.Time]. *)
Definition Time : Type := Z.

(** [end.Sub(start)]: the difference, saturated to the range of
    [time.Duration]. *)
Definition Time_Sub (t u : Time) : Z :=
  Z.max int64_min (Z.min int64_max (t - u)).

(** ** Data model ([printlog.go]) *)

Record extraFields := {
  value : string;
  found : bool
}.

Record aggregateDetails := {
  lastMod : Time;
  sumLatency : Z;
  maxLatency : Z;
  minLatency : Z;
  sumSizeRespoBody : Z;
  int_ : Z
}.

Record realtimeDetails := {
  errorMessage : string;
  queryString : string;
  path : string;
  headers : gmap string string;
  referer : string;
  latency : Z;
  responseBodySize : Z
}.

(** [aggregate] and [realtime] are the two embedded structs. *)
Record logEntry := {
  created : Time;
  remoteIp : string;
  ua : string;
  method : string;
  aggregatePath : string;
  statusCode : Z;
  count : Z;
  proto : string;
  isBotDetectorEnabled : bool;
  isBot : Z;
  isAggregate : bool;
  aggregate : aggregateDetails;
  realtime : realtimeDetails;
  extraFields_ : gmap string extraFields;
  ip : string
}.

(** The zero values of the embedded structs. *)
Definition zero_aggregateDetails : aggregateDetails :=
  {| lastMod := 0; sumLatency := 0; maxLatency := 0; minLatency := 0;
     sumSizeRespoBody := 0; int_ := 0 |}.

Definition zero_realtimeDetails : realtimeDetails :=
  {| errorMessage := ""; queryString := ""; path := ""; headers := ∅;
     referer := ""; latency := 0; responseBodySize := 0 |}.

(** ** Configuration ([config.go]) *)

(** [botDetectionService] is the optional [BotDetector] interface value, given
    by its one method [IsBot]; [None] is the nil interface. *)
Record conf := {
  botDetectionService : option (string -> bool);
  logQueryString : bool;
  excludedPaths : list string;
  logHeaders : bool;
  aggregationQueueSize : Z;
  defaultLogMessage : string;
  clientIPHeaders : list string;
  logHeadersWithName : gmap string (list string);
  pathMappingFunction : string -> string -> Z -> string;
  isAggregationEnabled : bool;
  aggregationInterval : Z;
  userAgentHeaders : list string;
  staticLogEntries : gmap string string
}.

(** The default path mapping installed by [configure]. *)
Definition default_pathMappingFunction (route path_ : string) (status : Z) : string :=
  if String.eqb route "" then
    if (400 <=? status) && (status <? 500) then "error_4xx"
    else if 500 <=? status then "error_5xx"
    else "missing_route"
  else route.

(** [configure()] with no option applied. *)
Definition configure_default : conf :=
  {| botDetectionService := None;
     logQueryString := false;
     excludedPaths := [];
     logHeaders := false;
     aggregationQueueSize := 100;
     defaultLogMessage := "logger v1";
     clientIPHeaders := [];
     logHeadersWithName := ∅;
     pathMappingFunction := default_pathMappingFunction;
     isAggregationEnabled := false;
     aggregationInterval := 10 * 1000000000;
     userAgentHeaders := [];
     staticLogEntries := ∅ |}.

(** The options used below: each sets one field and leaves the others. *)
Definition WithBotDetector (detector : option (string -> bool)) (c : conf) : conf :=
  {| botDetectionService := detector;
     logQueryString := logQueryString c;
     excludedPaths := excludedPaths c;
     logHeaders := logHeaders c;
     aggregationQueueSize := aggregationQueueSize c;
     defaultLogMessage := defaultLogMessage c;
     clientIPHeaders := clientIPHeaders c;
     logHeadersWithName := logHeadersWithName c;
     pathMappingFunction := pathMappingFunction c;
     isAggregationEnabled := isAggregationEnabled c;
     aggregationInterval := aggregationInterval c;
     userAgentHeaders := userAgentHeaders c;
     staticLogEntries := staticLogEntries c |}.

Definition WithSkipPaths (paths : list string) (c : conf) : conf :=
  {| botDetectionService := botDetectionService c;
     logQueryString := logQueryString c;
     excludedPaths := paths;
     logHeaders := logHeaders c;
     aggregationQueueSize := aggregationQueueSize c;
     defaultLogMessage := defaultLogMessage c;
     clientIPHeaders := clientIPHeaders c;
     logHeadersWithName := logHeadersWithName c;
     pathMappingFunction := pathMappingFunction c;
     isAggregationEnabled := isAggregationEnabled c;
     aggregationInterval := aggregationInterval c;
     userAgentHeaders := userAgentHeaders c;
     staticLogEntries := staticLogEntries c |}.

Definition WithQueueSize (size : Z) (c : conf) : conf :=
  {| botDetectionService := botDetectionService c;
     logQueryString := logQueryString c;
     excludedPaths := excludedPaths c;
     logHeaders := logHeaders c;
     aggregationQueueSize := size;
     defaultLogMessage := defaultLogMessage c;
     clientIPHeaders := clientIPHeaders c;
     logHeadersWithName := logHeadersWithName c;
     pathMappingFunction := pathMappingFunction c;
     isAggregationEnabled := isAggregationEnabled c;
     aggregationInterval := aggregationInterval c;
     userAgentHeaders := userAgentHeaders c;
     staticLogEntries := staticLogEntries c |}.

Definition WithTimeAggregation (every : Z) (c : conf) : conf :=
  {| botDetectionService := botDetectionService c;
     logQueryString := logQueryString c;
     excludedPaths := excludedPaths c;
     logHeaders := logHeaders c;
     aggregationQueueSize := aggregationQueueSize c;
     defaultLogMessage := defaultLogMessage c;
     clientIPHeaders := clientIPHeaders c;
     logHeadersWithName := logHeadersWithName c;
     pathMappingFunction := pathMappingFunction c;
     isAggregationEnabled := true;
     aggregationInterval := every;
     userAgentHeaders := userAgentHeaders c;
     staticLogEntries := staticLogEntries c |}.

(** ** The standard library and gin, as far as the code calls them *)

Record httpRequest := {
  URL_Path : string;
  URL_RawQuery : string;
  RemoteAddr : string;
  Method : string;
  Proto : string;
  Header : gmap string (list string)
}.

Class External := {
  (** [t.Format(time.RFC3339)] *)
  Format_RFC3339 : Time -> string;
  (** [net.SplitHostPort]: host, port, and whether [err == nil] *)
  SplitHostPort : string -> string * string * bool;
  (** [net.ParseIP(s) != nil] *)
  ParseIP_ok : string -> bool;
  (** [http.Header.Get] *)
  Header_Get : gmap string (list string) -> string -> string;
  (** [strings.Split], [strings.TrimSpace], [strings.ToLower] *)
  strings_Split : string -> string -> list string;
  strings_TrimSpace : string -> string;
  strings_ToLower : string -> string
}.

(** [strings.Join] and [strings.HasPrefix]. *)
Definition strings_Join (l : list string) (sep : string) : string :=
  String.concat sep l.

Definition strings_HasPrefix (s p : string) : bool := String.prefix p s.

(** ** Structured log records ([log/slog]) *)

(** The value of an attribute.  A [float64] is represented by the exact
    rational it approximates: the conversions [float64(int)] and the rounding
    of the quotient are not modelled. *)
Inductive Value :=
| StringValue (s : string)
| IntValue (z : Z)
| DurationValue (d : Z)
| Float64Value (q : Q)
| AnyValue (m : gmap string string).

Definition Attr : Type := string * Value.

Definition slog_String (k v : string) : Attr := (k, StringValue v).
Definition slog_Int (k : string) (v : Z) : Attr := (k, IntValue v).
Definition slog_Duration (k : string) (v : Z) : Attr := (k, DurationValue v).
Definition slog_Float64 (k : string) (v : Q) : Attr := (k, Float64Value v).
Definition slog_Any (k : string) (v : gmap string string) : Attr := (k, AnyValue v).

(** One call of [loggingHandler.Info(msg, args...)]. *)
Record LogRecord := {
  Message : string;
  Attrs : list Attr
}.

(** [len(m) > 0] for a map. *)
Definition nonempty {V} (m : gmap string V) : bool := negb (Nat.eqb (size m) 0).

Section Engine.
Context `{External}.

(** ** [printLog] ([printlog.go]) *)

(** Lines 75-78: the mean response size of an aggregated entry. *)
Definition meanSizeRespBody (v : logEntry) : Q :=
  if (0 <? sumSizeRespoBody (aggregate v)) && negb (Z.eqb (count v) 0)
  then Qdiv (inject_Z (sumSizeRespoBody (aggregate v))) (inject_Z (count v))
  else inject_Z 0.

Definition printLog (msg : string) (v : logEntry) (c : conf) : option LogRecord :=
  let args :=
    [ slog_String "created" (Format_RFC3339 (created v));
      slog_String "ip" (ip v);
      slog_String "remoteIp" (remoteIp v);
      slog_String "ua" (ua v);
      slog_String "method" (method v);
      slog_String "proto" (proto v);
      slog_Int "statusCode" (statusCode v);
      slog_Int "counter" (count v) ] in
  let args :=
    if negb (String.eqb (referer (realtime v)) "")
    then args ++ [slog_String "referer" (referer (realtime v))] else args in
  let args :=
    if isBotDetectorEnabled v
    then args ++ [slog_Int "isBot" (isBot v)] else args in
  let args :=
    if negb (String.eqb (aggregatePath v) "")
    then args ++ [slog_String "aggregatePath" (aggregatePath v)] else args in
  args ←
    (if isAggregate v then
       meanLatency ← go_div (sumLatency (aggregate v)) (count v);
       Some (args ++
             [ slog_Duration "meanLatency" meanLatency;
               slog_Duration "minLatency" (minLatency (aggregate v));
               slog_Duration "maxLatency" (maxLatency (aggregate v));
               slog_Float64 "meanSizeRespBody" (meanSizeRespBody v);
               slog_Int "sumSizeRespBody" (sumSizeRespoBody (aggregate v)) ])
     else
       let r := realtime v in
       let args :=
         if negb (String.eqb (path r) "")
         then args ++ [slog_String "path" (path r)] else args in
       let args :=
         if negb (String.eqb (errorMessage r) "")
         then args ++ [slog_String "errorMessage" (errorMessage r)] else args in
       let args :=
         if logQueryString c && negb (String.eqb (queryString r) "")
         then args ++ [slog_String "queryString" (queryString r)] else args in
       let args :=
         if logHeaders c && nonempty (headers r)
         then args ++ [slog_Any "fullHeaders" (headers r)] else args in
       Some (args ++ [slog_Duration "latency" (latency r)]
                  ++ [slog_Int "responseSize" (responseBodySize r)]));
  let args :=
    if nonempty (logHeadersWithName c)
    then args ++ flat_map
                   (fun kv : string * extraFields =>
                      if found kv.2 then [slog_String kv.1 (value kv.2)] else [])
                   (map_to_list (extraFields_ v))
    else args in
  let args :=
    if nonempty (staticLogEntries c)
    then args ++ map (fun kv : string * string => slog_String kv.1 kv.2)
                     (map_to_list (staticLogEntries c))
    else args in
  Some {| Message := msg; Attrs := args |}.

(** ** The aggregator ([aggregator.go]) *)

Definition botDetectorInfo (c : conf) (userAgent : string) : bool * Z :=
  match botDetectionService c with
  | Some IsBot => (true, if IsBot userAgent then 1 else 0)
  | None => (false, 0)
  end.

(** [printLogs]: one [printLog] per entry of the table, nothing for an empty
    table.  The records are returned in emission order. *)
Definition printLogs (a : conf) (stats : gmap string logEntry) : option (list LogRecord) :=
  if Nat.eqb (size stats) 0 then Some []
  else mapM (fun kv : string * logEntry => printLog "api_logger v1" kv.2 a)
            (map_to_list stats).

(** Lines 33-34: the grouping key of a record taken from the queue. *)
Definition key (st : logEntry) : string :=
  ip st +:+ "_" +:+ Itoa (statusCode st) +:+ "_" +:+
  ua st +:+ "_" +:+ method st +:+ "_" +:+ proto st +:+ "_" +:+ "_" +:+
  aggregatePath st.

(** Lines 36-58: the accumulator created for a key that is not in the table.
    [now] and [now'] are the two readings of [time.Now().UTC()]; the fields
    the literal leaves out have their zero value. *)
Definition newLogEntry (a : conf) (st : logEntry) (now now' : Time) : logEntry :=
  let '(hasBotDetector, isBot_) := botDetectorInfo a (ua st) in
  {| created := now;
     ip := ip st;
     remoteIp := remoteIp st;
     ua := ua st;
     method := method st;
     statusCode := statusCode st;
     isAggregate := true;
     aggregate :=
       {| lastMod := now';
          sumLatency := 0;
          maxLatency := latency (realtime st);
          minLatency := latency (realtime st);
          sumSizeRespoBody := responseBodySize (realtime st);
          int_ := 0 |};
     isBotDetectorEnabled := hasBotDetector;
     isBot := isBot_;
     proto := proto st;
     aggregatePath := aggregatePath st;
     count := 0;
     realtime := zero_realtimeDetails;
     extraFields_ := ∅ |}.

(** Lines 60-69: the update of the accumulator [v] with the record [st]. *)
Definition updateStats (v st : logEntry) : logEntry :=
  let l := latency (realtime st) in
  let d := aggregate v in
  {| created := created v;
     remoteIp := remoteIp v;
     ua := ua v;
     method := method v;
     aggregatePath := aggregatePath v;
     statusCode := statusCode v;
     count := wrap64 (count v + 1);
     proto := proto v;
     isBotDetectorEnabled := isBotDetectorEnabled v;
     isBot := isBot v;
     isAggregate := isAggregate v;
     aggregate :=
       {| lastMod := lastMod d;
          sumLatency := wrap64 (sumLatency d + l);
          maxLatency := if maxLatency d <? l then l else maxLatency d;
          minLatency := if minLatency d >? l then l else minLatency d;
          sumSizeRespoBody :=
            wrap64 (sumSizeRespoBody d + responseBodySize (realtime st));
          int_ := int_ d |};
     realtime := realtime v;
     extraFields_ := extraFields_ v;
     ip := ip v |}.

(** The three cases of the [select] in the loop of [initLoggerAggregator]. *)
Inductive event :=
| ctx_Done
| t_C
| queue_recv (st : logEntry) (now now' : Time).

(** The state of the goroutine: the table and whether [t.Stop()] was
    called. *)
Record loop := {
  logEntries : gmap string logEntry;
  stopped : bool
}.

(** Lines 27-70: the case [st := <-c]. *)
Definition receive (a : conf) (st : logEntry) (now now' : Time)
    (logEntries : gmap string logEntry) : gmap string logEntry :=
  let k := key st in
  let v := match logEntries !! k with
           | Some v => v
           | None => newLogEntry a st now now'
           end in
  <[k := updateStats v st]> logEntries.

(** One iteration of [for { select { ... } }], given the case that was
    selected: the next state of the goroutine and the records it emitted.
    No case leaves the loop: after each of them the [for] starts the next
    iteration. *)
Definition iteration (a : conf) (ev : event) (s : loop) : option (loop * list LogRecord) :=
  match ev with
  | ctx_Done =>
      out ← printLogs a (logEntries s);
      Some ({| logEntries := ∅; stopped := true |}, out)
  | t_C =>
      out ← printLogs a (logEntries s);
      Some ({| logEntries := ∅; stopped := stopped s |}, out)
  | queue_recv st now now' =>
      Some ({| logEntries := receive a st now now' (logEntries s);
               stopped := stopped s |}, [])
  end.

(** The state in which the goroutine starts. *)
Definition loop_init : loop := {| logEntries := ∅; stopped := false |}.

(** The iterations for a sequence of selected cases, with everything
    emitted on the way. *)
Fixpoint iterations (a : conf) (evs : list event) (s : loop) : option (loop * list LogRecord) :=
  match evs with
  | [] => Some (s, [])
  | ev :: evs' =>
      r ← iteration a ev s;
      r' ← iterations a evs' r.1;
      Some (r'.1, r.2 ++ r'.2)
  end.

(** ** The queue and [send] (middleware file) *)

(** The channel [a.queue]: the records sent and not yet received, oldest
    first, and the capacity given to [make].  The goroutine takes a record
    from the head in a step of its own; a send that Go hands directly to a
    receiver parked in its [select] is that insertion followed at once by
    the receive.  The model is therefore exact for buffered channels
    (capacity at least 1, the default being 100); on a channel of capacity 0
    a send succeeds in Go only by such a hand-off, and here never. *)
Record chan := {
  buf : list logEntry;
  cap : nat
}.

(** What the middleware and the goroutine act on: the cancellation state of
    [ctx], the queue of the [Logger] ([None] is the nil channel of a logger
    built without aggregation), the goroutine, the records given to
    [conf.loggingHandler], and the warnings given to the default [slog]
    logger. *)
Record world := {
  cancelled : bool;
  queue : option chan;
  goroutine : loop;
  sink : list LogRecord;
  warnings : list string
}.

Definition set_queue (q : option chan) (w : world) : world :=
  {| cancelled := cancelled w; queue := q; goroutine := goroutine w;
     sink := sink w; warnings := warnings w |}.

Definition set_goroutine (s : loop) (w : world) : world :=
  {| cancelled := cancelled w; queue := queue w; goroutine := s;
     sink := sink w; warnings := warnings w |}.

Definition emit (out : list LogRecord) (w : world) : world :=
  {| cancelled := cancelled w; queue := queue w; goroutine := goroutine w;
     sink := sink w ++ out; warnings := warnings w |}.

Definition slog_Warn (msg : string) (w : world) : world :=
  {| cancelled := cancelled w; queue := queue w; goroutine := goroutine w;
     sink := sink w; warnings := warnings w ++ [msg] |}.

(** [cancel()] of the context given to [New]. *)
Definition cancel (w : world) : world :=
  {| cancelled := true; queue := queue w; goroutine := goroutine w;
     sink := sink w; warnings := warnings w |}.

(** [send]: a [select] with the send as its one case and a [default]. *)
Definition send (l : logEntry) (w : world) : world :=
  match queue w with
  | Some c =>
      if (length (buf c) <? cap c)%nat
      then set_queue (Some {| buf := buf c ++ [l]; cap := cap c |}) w
      else slog_Warn "stats loggingHandler queue channel is full" w
  | None => slog_Warn "stats loggingHandler queue channel is full" w
  end.

(** [configure]: the options applied in order to the defaults. *)
Definition configure (opts : list (conf -> conf)) : conf :=
  fold_left (fun c opt => opt c) opts configure_default.

(** [New], from the configuration [configure] returned: the queue is made
    only when aggregation is enabled, and [make] panics on a negative
    size. *)
Definition New (logConf : conf) : option world :=
  if isAggregationEnabled logConf then
    if aggregationQueueSize logConf <? 0 then None
    else Some {| cancelled := false;
                 queue := Some {| buf := [];
                                  cap := Z.to_nat (aggregationQueueSize logConf) |};
                 goroutine := loop_init; sink := []; warnings := [] |}
  else Some {| cancelled := false; queue := None; goroutine := loop_init;
               sink := []; warnings := [] |}.

(** ** Request helpers *)

Definition isValidIP (ip_ : string) : bool := ParseIP_ok ip_.

(** The inner loop of [GetClientIPFromHeaders]: the first valid address of
    a comma-separated header value. *)
Fixpoint firstValidIP (ips : list string) : option string :=
  match ips with
  | [] => None
  | ip_ :: rest =>
      let ip_ := strings_TrimSpace ip_ in
      if isValidIP ip_ then Some ip_ else firstValidIP rest
  end.

(** The outer loop of [GetClientIPFromHeaders]. *)
Fixpoint ipFromHeaders (r : httpRequest) (headerNames : list string) : option string :=
  match headerNames with
  | [] => None
  | headerName :: rest =>
      let headerValue := Header_Get (Header r) headerName in
      let hit := if negb (String.eqb headerValue "")
                 then firstValidIP (strings_Split headerValue ",") else None in
      match hit with
      | Some ip_ => Some ip_
      | None => ipFromHeaders r rest
      end
  end.

Definition GetClientIPFromHeaders (r : httpRequest) (headerNames : list string) : string :=
  match ipFromHeaders r headerNames with
  | Some ip_ => ip_
  | None =>
      let '(ip_, _, ok) := SplitHostPort (RemoteAddr r) in
      if ok && isValidIP ip_ then ip_ else ""
  end.

Fixpoint getHeaderValue (header : gmap string (list string)) (keys : list string) : string * bool :=
  match keys with
  | [] => ("", false)
  | k :: rest =>
      let val := Header_Get header k in
      if negb (String.eqb val "") then (val, true) else getHeaderValue header rest
  end.

(** ** [buildLogEntry] and [Middleware] *)

(** Lines 137-147 of the middleware file: the headers kept for the log. *)
Definition loggedHeaders (h : gmap string (list string)) : gmap string string :=
  fold_left
    (fun (acc : gmap string string) (kv : string * list string) =>
       let k := strings_ToLower kv.1 in
       if String.eqb k "cdn-loop" || String.eqb k "user-agent" ||
          String.eqb k "x-real-ip" || strings_HasPrefix k "cf-" ||
          strings_HasPrefix k "x-forwarded-"
       then acc
       else <[k := strings_Join kv.2 " | "]> acc)
    (map_to_list h) ∅.

Definition buildLogEntry (logConf : conf) (start end_ : Time) (r : httpRequest)
    (ip_ : string) (statusCode_ : Z) (routerPath : string) (responseBodySize_ : Z)
    : logEntry :=
  let query := URL_RawQuery r in
  let path_ := URL_Path r in
  let pathAggregated := pathMappingFunction logConf routerPath path_ statusCode_ in
  let remoteAddress := (SplitHostPort (RemoteAddr r)).1.1 in
  let ip_ :=
    if negb (Nat.eqb (length (clientIPHeaders logConf)) 0) then
      let ipFromHeader := GetClientIPFromHeaders r (clientIPHeaders logConf) in
      if negb (String.eqb ipFromHeader "") then ipFromHeader else ip_
    else ip_ in
  let ip_ := if String.eqb ip_ "" then remoteAddress else ip_ in
  let latency_ := Time_Sub end_ start in
  let method_ := Method r in
  let userAgent := Header_Get (Header r) "User-Agent" in
  let userAgent :=
    if negb (Nat.eqb (length (userAgentHeaders logConf)) 0)
    then (getHeaderValue (Header r) (userAgentHeaders logConf)).1
    else userAgent in
  let referer_ := Header_Get (Header r) "Referer" in
  let proto_ := Proto r in
  {| created := start;
     ip := ip_;
     remoteIp := remoteAddress;
     ua := userAgent;
     method := method_;
     aggregatePath := pathAggregated;
     statusCode := statusCode_;
     count := 1;
     proto := proto_;
     isAggregate := false;
     realtime :=
       {| errorMessage := "";
          queryString := query;
          path := path_;
          headers := if logHeaders logConf && nonempty (Header r)
                     then loggedHeaders (Header r) else ∅;
          referer := referer_;
          latency := latency_;
          responseBodySize := responseBodySize_ |};
     extraFields_ :=
       (fun v : list string =>
          let '(value_, found_) := getHeaderValue (Header r) v in
          {| value := value_; found := found_ |}) <$> logHeadersWithName logConf;
     isBotDetectorEnabled := false;
     isBot := match botDetectionService logConf with
              | Some IsBot => if IsBot userAgent then 1 else 0
              | None => 0
              end;
     aggregate := zero_aggregateDetails |}.

(** The part of [gin.Context] the middleware reads. *)
Record ginContext := {
  Request : httpRequest;
  FullPath : string;
  Writer_Status : Z;
  Writer_Size : Z;
  ClientIP : string
}.

(** The set [skipPaths] built when [Middleware] is called. *)
Definition skipPaths (a : conf) : gset string := list_to_set (excludedPaths a).

Definition set_isAggregate (b : bool) (v : logEntry) : logEntry :=
  {| created := created v; remoteIp := remoteIp v; ua := ua v;
     method := method v; aggregatePath := aggregatePath v;
     statusCode := statusCode v; count := count v; proto := proto v;
     isBotDetectorEnabled := isBotDetectorEnabled v; isBot := isBot v;
     isAggregate := b; aggregate := aggregate v; realtime := realtime v;
     extraFields_ := extraFields_ v; ip := ip v |}.

(** The handler [Middleware] returns, run on the context [c].  [Next] is
    [c.Next()], the rest of the handler chain, as a function on the context;
    [start] and [end_] are the two readings of [time.Now()]. *)
Definition Middleware (a : conf) (Next : ginContext -> ginContext)
    (start end_ : Time) (c : ginContext) (w : world) : option (ginContext * world) :=
  let path_ := URL_Path (Request c) in
  if bool_decide (path_ ∈ skipPaths a) then
    Some (Next c, w)
  else
    let c := Next c in
    let r := Request c in
    let routerPath := FullPath c in
    let statusCode_ := Writer_Status c in
    let responseBodySize_ := Writer_Size c in
    let responseBodySize_ := if responseBodySize_ <? 0 then 0 else responseBodySize_ in
    let ip_ := ClientIP c in
    let logItem :=
      buildLogEntry a start end_ r ip_ statusCode_ routerPath responseBodySize_ in
    if isAggregationEnabled a then
      Some (c, send (set_isAggregate true logItem) w)
    else
      rec ← printLog "api_logger v1" logItem a;
      Some (c, emit [rec] w).

(** ** The goroutine and its environment *)

(** The cases of the [select] that can be chosen in a state: [ctx.Done()]
    is closed once the context is cancelled and stays so; the ticker
    delivers ticks until it is stopped; the queue delivers its oldest
    record. *)
Inductive ready (w : world) : event -> Prop :=
| ready_Done : cancelled w = true -> ready w ctx_Done
| ready_tick : stopped (goroutine w) = false -> ready w t_C
| ready_recv c st now now' :
    queue w = Some c -> head (buf c) = Some st -> ready w (queue_recv st now now').

(** The queue after the case [ev] was chosen. *)
Definition dequeue (ev : event) (q : option chan) : option chan :=
  match ev, q with
  | queue_recv _ _ _, Some c => Some {| buf := tail (buf c); cap := cap c |}
  | _, _ => q
  end.

(** One iteration of the loop of the goroutine.  [New] starts the goroutine
    only when it makes the queue, so there is none to run in a world whose
    queue is nil. *)
Inductive step (a : conf) (w : world) : world -> Prop :=
| step_iteration ev s' out :
    is_Some (queue w) ->
    ready w ev ->
    iteration a ev (goroutine w) = Some (s', out) ->
    step a w (emit out (set_goroutine s' (set_queue (dequeue ev (queue w)) w))).

End Engine.

(** ** Vocabulary of the statements *)

(** The records of a window, each with the two clock readings of its
    iteration, and the table after the goroutine received them in order. *)
Definition arrival : Type := logEntry * Time * Time.

Definition record_of (x : arrival) : logEntry := x.1.1.

Definition receive_all (a : conf) (win : list arrival)
    (tbl : gmap string logEntry) : gmap string logEntry :=
  fold_left (fun t (x : arrival) => receive a (record_of x) x.1.2 x.2 t) win tbl.

Definition recv_event (x : arrival) : event := queue_recv (record_of x) x.1.2 x.2.

(** The records of a window that have the grouping key [K], in arrival
    order. *)
Definition with_key (K : string) (win : list arrival) : list arrival :=
  filter (fun x => key (record_of x) = K) win.

Definition latencies (rs : list arrival) : list Z :=
  map (fun x => latency (realtime (record_of x))) rs.

Definition sizes (rs : list arrival) : list Z :=
  map (fun x => responseBodySize (realtime (record_of x))) rs.

Definition sum (l : list Z) : Z := fold_right Z.add 0 l.

(** [m] is the least (greatest) element of [l]. *)
Definition is_min (m : Z) (l : list Z) : Prop := m ∈ l /\ forall x, x ∈ l -> m <= x.
Definition is_max (m : Z) (l : list Z) : Prop := m ∈ l /\ forall x, x ∈ l -> x <= m.

(** The event is one of the two that flush the table. *)
Definition is_flush (ev : event) : Prop := ev = t_C \/ ev = ctx_Done.

(** The six grouping fields of a record. *)
Definition grouping_fields (st : logEntry) : string * Z * string * string * string * string :=
  (ip st, statusCode st, ua st, method st, proto st, aggregatePath st).

(** The fields of an accumulator that a merge leaves alone: everything but
    [count], [sumLatency], [minLatency], [maxLatency] and
    [sumSizeRespoBody]. *)
Definition same_snapshot (v v' : logEntry) : Prop :=
  created v' = created v /\ ip v' = ip v /\ remoteIp v' = remoteIp v /\
  ua v' = ua v /\ method v' = method v /\ proto v' = proto v /\
  aggregatePath v' = aggregatePath v /\ statusCode v' = statusCode v /\
  isBotDetectorEnabled v' = isBotDetectorEnabled v /\ isBot v' = isBot v /\
  isAggregate v' = isAggregate v /\
  lastMod (aggregate v') = lastMod (aggregate v) /\
  int_ (aggregate v') = int_ (aggregate v) /\
  realtime v' = realtime v /\ extraFields_ v' = extraFields_ v.

(** What the accumulator of a key holds after the records [rs] of that key,
    in arrival order, were merged into it, in the arithmetic of the code. *)
Record accumulates (rs : list arrival) (v : logEntry) : Prop := {
  acc_count : count v = wrap64 (Z.of_nat (length rs));
  acc_sumLatency : sumLatency (aggregate v) = wrap64 (sum (latencies rs));
  acc_min : is_min (minLatency (aggregate v)) (latencies rs);
  acc_max : is_max (maxLatency (aggregate v)) (latencies rs);
  acc_sumSize :
    sumSizeRespoBody (aggregate v) =
    wrap64 (hd 0 (sizes rs) + sum (sizes rs))
}.

(** What the goroutine stamps on every accumulator it creates under the
    configuration [a]. *)
Definition stamped (a : conf) (v : logEntry) : Prop :=
  isAggregate v = true /\
  extraFields_ v = ∅ /\
  isBotDetectorEnabled v = bool_decide (is_Some (botDetectionService a)) /\
  isBot v = match botDetectionService a with
            | Some IsBot => if IsBot (ua v) then 1 else 0
            | None => 0
            end.

(** Every accumulator of the table has a [count] between 1 and [n]. *)
Definition table_counts (n : Z) (tbl : gmap string logEntry) : Prop :=
  forall k v, tbl !! k = Some v -> 1 <= count v <= n.

(** Every accumulator of the table carries the stamp of [a]. *)
Definition table_stamped (a : conf) (tbl : gmap string logEntry) : Prop :=
  forall k v, tbl !! k = Some v -> stamped a v.

(** A state of the goroutine at the start of a window. *)
Definition fresh_window (b : bool) : loop := {| logEntries := ∅; stopped := b |}.

(** ** Sample data *)

(** An instance of the library functions, for the examples: addresses are
    taken as they are, header names are not canonicalised. *)
Definition sample_External : External :=
  {| Format_RFC3339 := fun t => Itoa t;
     SplitHostPort := fun s => (s, "", true);
     ParseIP_ok := fun s => negb (String.eqb s "");
     Header_Get := fun h k => match h !! k with Some (v :: _) => v | _ => "" end;
     strings_Split := fun s sep => [s];
     strings_TrimSpace := fun s => s;
     strings_ToLower := fun s => s |}.

(** A record as [Middleware] sends it: a GET by the user agent [ua_],
    aggregated under [path_], answered with [status] after [lat]
    nanoseconds with [size] bytes. *)
Definition sample_record (ua_ path_ : string) (status lat size : Z) : logEntry :=
  {| created := 0;
     remoteIp := "10.0.0.1";
     ua := ua_;
     method := "GET";
     aggregatePath := path_;
     statusCode := status;
     count := 1;
     proto := "HTTP/1.1";
     isBotDetectorEnabled := false;
     isBot := 0;
     isAggregate := true;
     aggregate := zero_aggregateDetails;
     realtime :=
       {| errorMessage := ""; queryString := ""; path := path_; headers := ∅;
          referer := ""; latency := lat; responseBodySize := size |};
     extraFields_ := ∅;
     ip := "192.0.2.7" |}.

Definition ms : Z := 1000000.

Definition sample_aggregating : conf :=
  configure [WithTimeAggregation (10 * 1000 * ms); WithQueueSize 2].

(** A user-agent test standing for a bot detector. *)
Definition sample_IsBot (userAgent : string) : bool := String.prefix "bot" userAgent.

Definition sample_request (path_ : string) : httpRequest :=
  {| URL_Path := path_; URL_RawQuery := ""; RemoteAddr := "10.0.0.1";
     Method := "GET"; Proto := "HTTP/1.1"; Header := ∅ |}.

Definition sample_context (path_ : string) : ginContext :=
  {| Request := sample_request path_; FullPath := path_;
     Writer_Status := 0; Writer_Size := -1; ClientIP := "192.0.2.7" |}.

(** A handler chain that answers 200 with four bytes. *)
Definition sample_Next (c : ginContext) : ginContext :=
  {| Request := Request c; FullPath := FullPath c;
     Writer_Status := 200; Writer_Size := 4; ClientIP := ClientIP c |}.

(** The records of the scenario: one key, latencies of 50, 20 and 70 ms,
    sizes of 100, 200 and 50 bytes. *)
Definition sample_r1 : logEntry := sample_record "curl" "/ping" 200 (50 * ms) 100.
Definition sample_r2 : logEntry := sample_record "curl" "/ping" 200 (20 * ms) 200.
Definition sample_r3 : logEntry := sample_record "curl" "/ping" 200 (70 * ms) 50.

Definition sample_window : list arrival := [(sample_r1, 1, 1); (sample_r2, 2, 2)].

Definition sample_key : string := "192.0.2.7_200_curl_GET_HTTP/1.1__/ping".

(** The goroutine has merged [sample_r1], [sample_r2] is still in the
    queue, and the context has been cancelled. *)
Definition sample_shutdown : world :=
  {| cancelled := true;
     queue := Some {| buf := [sample_r2]; cap := 2 |};
     goroutine := {| logEntries := receive sample_aggregating sample_r1 1 1 ∅;
                     stopped := false |};
     sink := [];
     warnings := [] |}.

(** A world whose queue of capacity 2 is full. *)
Definition sample_full : world :=
  {| cancelled := false;
     queue := Some {| buf := [sample_r1; sample_r2]; cap := 2 |};
     goroutine := loop_init;
     sink := [];
     warnings := [] |}.

(** The record [printLog] makes of an accumulator of the sample key under
    [sample_External] and [sample_aggregating]. *)
Definition sample_summary (created_ : Time) (counter mean min max : Z)
    (meanSize : Q) (sumSize : Z) : LogRecord :=
  {| Message := "api_logger v1";
     Attrs :=
       [ slog_String "created" (Itoa created_);
         slog_String "ip" "192.0.2.7";
         slog_String "remoteIp" "10.0.0.1";
         slog_String "ua" "curl";
         slog_String "method" "GET";
         slog_String "proto" "HTTP/1.1";
         slog_Int "statusCode" 200;
         slog_Int "counter" counter;
         slog_String "aggregatePath" "/ping";
         slog_Duration "meanLatency" mean;
         slog_Duration "minLatency" min;
         slog_Duration "maxLatency" max;
         slog_Float64 "meanSizeRespBody" meanSize;
         slog_Int "sumSizeRespBody" sumSize ] |}.

(** A configuration with the sample bot detector. *)
Definition sample_detecting : conf :=
  WithBotDetector (Some sample_IsBot) sample_aggregating.

(** A configuration that excludes [/health]. *)
Definition sample_excluding : conf :=
  WithSkipPaths ["/health"] sample_aggregating.

(** Two records that differ in user agent and aggregated path. *)
Definition collide1 : logEntry :=
  sample_record "u" "/a_GET_HTTP/1.1__/b" 200 1 1.
Definition collide2 : logEntry :=
  sample_record "u_GET_HTTP/1.1__/a" "/b" 200 1 1.

(** ** The remaining request helpers *)

(** The part of [gin.LogFormatterParams] that [extractRequestDetails]
    reads. *)
Record LogFormatterParams := {
  Param_Header : gmap string (list string);
  Param_Path : string;
  Param_StatusCode : Z;
  Param_ClientIP : string
}.

(** [pathAggregator]; [None] is the nil function. *)
Definition pathAggregator (path_ : string) (statusCode_ : Z)
    (aggregator : option (string -> Z -> string)) : string :=
  match aggregator with
  | None => ""
  | Some f => f path_ statusCode_
  end.

Section Helpers.
Context `{External}.

Definition getCFCountry (header : gmap string (list string)) : string :=
  let ipCountry := Header_Get header "x-cf-ipcountry" in
  if negb (String.eqb ipCountry "") then ipCountry
  else Header_Get header "cf-ipcountry".

Definition getClientIp (ginClientIp : string) (header : gmap string (list string)) : string :=
  let clientIp := Header_Get header "x-cf-connecting-ip" in
  if negb (String.eqb clientIp "") then clientIp
  else
    let clientIp := Header_Get header "cf-connecting-ip" in
    if negb (String.eqb clientIp "") then clientIp else ginClientIp.

Definition getReferer (header : gmap string (list string)) : string :=
  let referer_ := Header_Get header "x-referer" in
  if negb (String.eqb referer_ "") then referer_
  else Header_Get header "referer".

Definition getUserAgent (header : gmap string (list string)) : string :=
  let userAgent := Header_Get header "x-user-agent" in
  if negb (String.eqb userAgent "") then userAgent
  else Header_Get header "user-agent".

(** [getPathAndQuery]: [pathComp[0]] panics on an empty slice. *)
Definition getPathAndQuery (ginPath : string) : option (string * string) :=
  match strings_Split ginPath "?" with
  | [] => None
  | path_ :: rest => Some (path_, strings_Join rest "?")
  end.

(** [extractRequestDetails]: aggregated path, path, query, country, client
    address, referer and user agent. *)
Definition extractRequestDetails (param : LogFormatterParams)
    (pAggregatorFunc : option (string -> Z -> string))
    : option (string * string * string * string * string * string * string) :=
  let header := Param_Header param in
  let pathAggregated :=
    pathAggregator (Param_Path param) (Param_StatusCode param) pAggregatorFunc in
  pq ← getPathAndQuery (Param_Path param);
  let ipCountry := getCFCountry header in
  let clientIp := getClientIp (Param_ClientIP param) header in
  let referer_ := getReferer header in
  let userAgent := getUserAgent header in
  Some (pathAggregated, pq.1, pq.2, ipCountry, clientIp, referer_, userAgent).

(** What can happen to a world: a producer sends a record, a request goes
    through the middleware, the context is cancelled, or the goroutine runs
    an iteration. *)
Inductive action (a : conf) (w : world) : world -> Prop :=
| action_send l : action a w (send l w)
| action_Middleware Next start end_ c c' w' :
    Middleware a Next start end_ c w = Some (c', w') -> action a w w'
| action_cancel : action a w (cancel w)
| action_step w' : step a w w' -> action a w w'.

(** The eight attributes every record starts with. *)
Definition base_attrs (v : logEntry) : list Attr :=
  [ slog_String "created" (Format_RFC3339 (created v));
    slog_String "ip" (ip v);
    slog_String "remoteIp" (remoteIp v);
    slog_String "ua" (ua v);
    slog_String "method" (method v);
    slog_String "proto" (proto v);
    slog_Int "statusCode" (statusCode v);
    slog_Int "counter" (count v) ].

End Helpers.

(** ** More vocabulary *)

(** The string has no underscore. *)
Fixpoint no_underscore (s : string) : bool :=
  match s with
  | EmptyString => true
  | String c r => negb (Ascii.eqb c "_") && no_underscore r
  end.

(** The grouping keys of the records of a window. *)
Definition keys_of (win : list arrival) : gset string :=
  list_to_set (map (fun x => key (record_of x)) win).

(** The sum of the counts of the accumulators of a table. *)
Definition total_count (tbl : gmap string logEntry) : Z :=
  sum (map (fun kv : string * logEntry => count kv.2) (map_to_list tbl)).

(** The queue holds no more records than its capacity. *)
Definition queue_bounded (w : world) : Prop :=
  match queue w with
  | Some c => (length (buf c) <= cap c)%nat
  | None => True
  end.

(** The queue of a logger configured by [a]: none without aggregation, and
    otherwise of the configured capacity and within it. *)
Definition queue_inv (a : conf) (w : world) : Prop :=
  match queue w with
  | Some c =>
      isAggregationEnabled a = true /\
      cap c = Z.to_nat (aggregationQueueSize a) /\
      (length (buf c) <= cap c)%nat
  | None => isAggregationEnabled a = false
  end.

(** The header names [loggedHeaders] leaves out, in lower case. *)
Definition header_left_out (k : string) : bool :=
  String.eqb k "cdn-loop" || String.eqb k "user-agent" ||
  String.eqb k "x-real-ip" || strings_HasPrefix k "cf-" ||
  strings_HasPrefix k "x-forwarded-".

(** [strings.Split] for a separator of one character. *)
Fixpoint split_char (c : ascii) (s : string) : list string :=
  match s with
  | EmptyString => [""]
  | String x r =>
      if Ascii.eqb x c then "" :: split_char c r
      else match split_char c r with
           | h :: t => String x h :: t
           | [] => [String x ""]
           end
  end.

(** An instance of the library functions that splits on one character and
    reads a header by its name as given. *)
Definition sample_External_split : External :=
  {| Format_RFC3339 := fun t => Itoa t;
     SplitHostPort := fun s => (s, "", true);
     ParseIP_ok := fun s => negb (String.eqb s "");
     Header_Get := fun h k => match h !! k with Some (v :: _) => v | _ => "" end;
     strings_Split := fun s sep =>
       match sep with
       | String c EmptyString => split_char c s
       | _ => [s]
       end;
     strings_TrimSpace := fun s => s;
     strings_ToLower := fun s => s |}.

(** A request with a forwarded address, a user agent and a country. *)
Definition sample_headers : gmap string (list string) :=
  {[ "X-Forwarded-For" := ["bogus, 198.51.100.4"];
     "User-Agent" := ["curl"];
     "cf-ipcountry" := ["IT"] ]}.

Definition sample_forwarded : httpRequest :=
  {| URL_Path := "/ping"; URL_RawQuery := "a=1"; RemoteAddr := "10.0.0.1";
     Method := "GET"; Proto := "HTTP/1.1"; Header := sample_headers |}.

(** A configuration without aggregation that logs the country header and
    two static entries. *)
Definition sample_realtime : conf :=
  {| botDetectionService := Some sample_IsBot;
     logQueryString := true;
     excludedPaths := ["/health"];
     logHeaders := true;
     aggregationQueueSize := 100;
     defaultLogMessage := "logger v1";
     clientIPHeaders := ["X-Forwarded-For"];
     logHeadersWithName := {[ "country" := ["x-cf-ipcountry"; "cf-ipcountry"] ]};
     pathMappingFunction := default_pathMappingFunction;
     isAggregationEnabled := false;
     aggregationInterval := 10 * 1000 * ms;
     userAgentHeaders := [];
     staticLogEntries := {[ "_appName" := "test" ]} |}.

Definition sample_forwarded_context : ginContext :=
  {| Request := sample_forwarded; FullPath := "/ping";
     Writer_Status := 0; Writer_Size := -1; ClientIP := "192.0.2.7" |}.

(** Records of two keys, interleaved. *)
Definition sample_r404 : logEntry := sample_record "curl" "/ping" 404 (5 * ms) 10.

Definition sample_mixed : list arrival :=
  [(sample_r1, 1, 1); (sample_r404, 2, 2); (sample_r2, 3, 3); (sample_r3, 4, 4)].

(** * Properties *)

(** ** Machine arithmetic *)

Lemma wrap64_id (z : Z) : in_int64 z -> wrap64 z = z.
Proof.
  unfold in_int64, int64_min, int64_max, wrap64. intros Hz.
  rewrite Z.mod_small; lia.
Qed.

Lemma wrap64_add_l (x y : Z) : wrap64 (wrap64 x + y) = wrap64 (x + y).
Proof.
  unfold wrap64.
  replace ((x + 2 ^ 63) mod 2 ^ 64 - 2 ^ 63 + y + 2 ^ 63)
    with ((x + 2 ^ 63) mod 2 ^ 64 + y) by lia.
  rewrite Zplus_mod_idemp_l. do 2 f_equal. lia.
Qed.

Lemma wrap64_range (z : Z) : in_int64 (wrap64 z).
Proof.
  unfold in_int64, int64_min, int64_max, wrap64.
  pose proof (Z.mod_pos_bound (z + 2 ^ 63) (2 ^ 64)). lia.
Qed.

Lemma go_div_Some (x y : Z) : y <> 0 -> go_div x y = Some (wrap64 (Z.quot x y)).
Proof.
  intros Hy. unfold go_div. destruct (Z.eqb_spec y 0); [contradiction | reflexivity].
Qed.

(** ** The table under [receive] *)

Lemma receive_other (a : conf) (st : logEntry) (now now' : Time)
    (tbl : gmap string logEntry) (K : string) :
  key st <> K -> receive a st now now' tbl !! K = tbl !! K.
Proof. intros Hk. unfold receive. by rewrite lookup_insert_ne. Qed.

Lemma receive_fresh (a : conf) (st : logEntry) (now now' : Time)
    (tbl : gmap string logEntry) :
  tbl !! key st = None ->
  receive a st now now' tbl !! key st =
  Some (updateStats (newLogEntry a st now now') st).
Proof. intros Hk. unfold receive. by rewrite Hk, lookup_insert_eq. Qed.

Lemma receive_present (a : conf) (st : logEntry) (now now' : Time)
    (tbl : gmap string logEntry) (v : logEntry) :
  tbl !! key st = Some v ->
  receive a st now now' tbl !! key st = Some (updateStats v st).
Proof. intros Hk. unfold receive. by rewrite Hk, lookup_insert_eq. Qed.

Lemma receive_all_snoc (a : conf) (win : list arrival) (x : arrival)
    (tbl : gmap string logEntry) :
  receive_all a (win ++ [x]) tbl =
  receive a (record_of x) x.1.2 x.2 (receive_all a win tbl).
Proof. unfold receive_all. by rewrite fold_left_app. Qed.

Lemma with_key_snoc (K : string) (win : list arrival) (x : arrival) :
  with_key K (win ++ [x]) =
  with_key K win ++ (if decide (key (record_of x) = K) then [x] else []).
Proof. unfold with_key. by rewrite filter_app. Qed.

Lemma same_snapshot_refl (v : logEntry) : same_snapshot v v.
Proof. unfold same_snapshot. tauto. Qed.

Lemma same_snapshot_trans (u v w : logEntry) :
  same_snapshot u v -> same_snapshot v w -> same_snapshot u w.
Proof. unfold same_snapshot. intuition congruence. Qed.

Lemma updateStats_snapshot (v st : logEntry) : same_snapshot v (updateStats v st).
Proof. unfold same_snapshot, updateStats. simpl. tauto. Qed.

(** ** What an accumulator holds *)

Lemma sum_snoc (l : list Z) (x : Z) : sum (l ++ [x]) = sum l + x.
Proof. unfold sum. induction l as [|y l IH]; simpl; lia. Qed.

Lemma is_min_snoc (m x : Z) (l : list Z) :
  is_min m l -> is_min (if m >? x then x else m) (l ++ [x]).
Proof.
  intros [Hin Hle]. destruct (Z.gtb_spec m x) as [Hgt|Hgt]; split.
  - apply elem_of_app; right. by apply list_elem_of_singleton.
  - intros y [Hy|Hy]%elem_of_app.
    + specialize (Hle y Hy). lia.
    + apply list_elem_of_singleton in Hy. lia.
  - apply elem_of_app; by left.
  - intros y [Hy|Hy]%elem_of_app.
    + by apply Hle.
    + apply list_elem_of_singleton in Hy. lia.
Qed.

Lemma is_max_snoc (m x : Z) (l : list Z) :
  is_max m l -> is_max (if m <? x then x else m) (l ++ [x]).
Proof.
  intros [Hin Hle]. destruct (Z.ltb_spec m x) as [Hlt|Hlt]; split.
  - apply elem_of_app; right. by apply list_elem_of_singleton.
  - intros y [Hy|Hy]%elem_of_app.
    + specialize (Hle y Hy). lia.
    + apply list_elem_of_singleton in Hy. lia.
  - apply elem_of_app; by left.
  - intros y [Hy|Hy]%elem_of_app.
    + by apply Hle.
    + apply list_elem_of_singleton in Hy. lia.
Qed.

(** The accumulator made by the first record of a key. *)
Lemma accumulates_first (a : conf) (x : arrival) :
  accumulates [x] (updateStats (newLogEntry a (record_of x) x.1.2 x.2) (record_of x)).
Proof.
  unfold newLogEntry. destruct (botDetectorInfo a (ua (record_of x))) as [hb ib].
  set (l := latency (realtime (record_of x))).
  split; simpl; fold l.
  - reflexivity.
  - f_equal. lia.
  - rewrite Z.gtb_ltb, Z.ltb_irrefl. split.
    + by apply list_elem_of_singleton.
    + intros y Hy. apply list_elem_of_singleton in Hy. lia.
  - rewrite Z.ltb_irrefl. split.
    + by apply list_elem_of_singleton.
    + intros y Hy. apply list_elem_of_singleton in Hy. lia.
  - f_equal. lia.
Qed.

Lemma latencies_snoc (rs : list arrival) (x : arrival) :
  latencies (rs ++ [x]) = latencies rs ++ [latency (realtime (record_of x))].
Proof. unfold latencies. by rewrite map_app. Qed.

Lemma sizes_snoc (rs : list arrival) (x : arrival) :
  sizes (rs ++ [x]) = sizes rs ++ [responseBodySize (realtime (record_of x))].
Proof. unfold sizes. by rewrite map_app. Qed.

(** One more record of the key merged into its accumulator. *)
Lemma accumulates_snoc (rs : list arrival) (x : arrival) (v : logEntry) :
  rs <> [] -> accumulates rs v -> accumulates (rs ++ [x]) (updateStats v (record_of x)).
Proof.
  intros Hne [Hc Hs Hmin Hmax Hsz]. split; simpl.
  - rewrite Hc, wrap64_add_l, length_app, Nat2Z.inj_add. reflexivity.
  - rewrite Hs, wrap64_add_l, latencies_snoc, sum_snoc. reflexivity.
  - rewrite latencies_snoc. by apply is_min_snoc.
  - rewrite latencies_snoc. by apply is_max_snoc.
  - rewrite Hsz, wrap64_add_l, sizes_snoc, sum_snoc.
    destruct rs as [|r rs]; [done|]. simpl. f_equal. lia.
Qed.

Lemma receive_all_no_record (a : conf) (K : string) (win : list arrival)
    (tbl : gmap string logEntry) :
  with_key K win = [] -> receive_all a win tbl !! K = tbl !! K.
Proof.
  induction win as [|x win IH] using rev_ind; [done|].
  rewrite with_key_snoc, receive_all_snoc. intros Hnil.
  apply app_eq_nil in Hnil as [Hw Hx].
  destruct (decide (key (record_of x) = K)) as [|Hk]; [done|].
  rewrite receive_other by done. by apply IH.
Qed.

(** The accumulator of [K] after a window that starts without one: it
    accumulates the records of [K] and carries the snapshot taken from the
    first of them. *)
Lemma receive_all_accumulates (a : conf) (K : string) (win : list arrival)
    (tbl : gmap string logEntry) (x0 : arrival) (rs : list arrival) :
  tbl !! K = None ->
  with_key K win = x0 :: rs ->
  exists v,
    receive_all a win tbl !! K = Some v /\
    accumulates (x0 :: rs) v /\
    same_snapshot (newLogEntry a (record_of x0) x0.1.2 x0.2) v.
Proof.
  intros Hfresh. revert x0 rs.
  induction win as [|x win IH] using rev_ind; [done|].
  intros x0 rs. rewrite with_key_snoc, receive_all_snoc.
  destruct (decide (key (record_of x) = K)) as [Hk|Hk].
  - destruct (with_key K win) as [|y ys] eqn:Hw.
    + simpl. intros [= <- <-].
      pose proof (receive_all_no_record a K win tbl Hw) as Hl.
      rewrite Hfresh in Hl. rewrite <- Hk in Hl |- *.
      rewrite receive_fresh by done.
      eexists; split; [reflexivity|]. split.
      * apply accumulates_first.
      * apply updateStats_snapshot.
    + simpl. intros [= <- <-].
      destruct (IH y ys eq_refl) as (v & Hv & Hacc & Hsnap).
      rewrite <- Hk in Hv |- *.
      rewrite (receive_present _ _ _ _ _ v) by done.
      eexists; split; [reflexivity|]. split.
      * change (y :: ys ++ [x]) with ((y :: ys) ++ [x]).
        by apply accumulates_snoc.
      * eapply same_snapshot_trans; [exact Hsnap | apply updateStats_snapshot].
  - rewrite app_nil_r. intros Hw.
    rewrite receive_other by done. by apply IH.
Qed.

Section Properties.
Context `{External}.

(** ** [printLog] and [printLogs] *)

(** Splits the conditionals of [printLog] and decides a membership in the
    resulting attribute list. *)
Ltac attrs_mem :=
  repeat match goal with
         | |- context [if ?b then _ else _] => destruct b
         end;
  rewrite ?elem_of_app, ?elem_of_cons; tauto.

(** [printLog] on an aggregated entry panics only on a zero [count]. *)
Lemma printLog_aggregate (msg : string) (v : logEntry) (c : conf) :
  isAggregate v = true ->
  count v <> 0 ->
  exists rec,
    printLog msg v c = Some rec /\
    Message rec = msg /\
    slog_Int "counter" (count v) ∈ Attrs rec /\
    slog_Duration "meanLatency"
      (wrap64 (Z.quot (sumLatency (aggregate v)) (count v))) ∈ Attrs rec /\
    slog_Duration "minLatency" (minLatency (aggregate v)) ∈ Attrs rec /\
    slog_Duration "maxLatency" (maxLatency (aggregate v)) ∈ Attrs rec /\
    slog_Float64 "meanSizeRespBody" (meanSizeRespBody v) ∈ Attrs rec /\
    slog_Int "sumSizeRespBody" (sumSizeRespoBody (aggregate v)) ∈ Attrs rec.
Proof.
  intros Hagg Hcnt. unfold printLog. rewrite Hagg, go_div_Some by done.
  cbn [mbind option_bind].
  eexists; split; [reflexivity|]. cbn [Message Attrs].
  split; [reflexivity|].
  repeat split; attrs_mem.
Qed.

Lemma printLog_realtime (msg : string) (v : logEntry) (c : conf) :
  isAggregate v = false -> is_Some (printLog msg v c).
Proof. intros Hagg. unfold printLog. rewrite Hagg. cbn [mbind option_bind]. eauto. Qed.

Lemma printLog_is_Some (msg : string) (v : logEntry) (c : conf) :
  count v <> 0 -> is_Some (printLog msg v c).
Proof.
  intros Hcnt. destruct (isAggregate v) eqn:Hagg.
  - destruct (printLog_aggregate msg v c Hagg Hcnt) as (rec & -> & _). eauto.
  - by apply printLog_realtime.
Qed.

(** [printLogs] emits one record per entry of the table, each the
    [printLog] of that entry. *)
Lemma printLogs_Some (a : conf) (stats : gmap string logEntry) (out : list LogRecord) :
  printLogs a stats = Some out <->
  Forall2 (fun (kv : string * logEntry) rec => printLog "api_logger v1" kv.2 a = Some rec)
          (map_to_list stats) out.
Proof.
  unfold printLogs. destruct (Nat.eqb_spec (size stats) 0) as [Hz|Hz].
  - apply map_size_empty_iff in Hz. subst stats. rewrite map_to_list_empty.
    split.
    + intros [= <-]. constructor.
    + intros Hf. inversion Hf. reflexivity.
  - apply mapM_Some.
Qed.

Lemma printLogs_empty (a : conf) : printLogs a ∅ = Some [].
Proof. reflexivity. Qed.

Lemma printLogs_is_Some (a : conf) (stats : gmap string logEntry) :
  (forall k v, stats !! k = Some v -> count v <> 0) -> is_Some (printLogs a stats).
Proof.
  intros Hcnt. unfold printLogs. destruct (Nat.eqb (size stats) 0); [eauto|].
  apply mapM_is_Some. apply Forall_forall. intros [k v] Hkv.
  apply elem_of_map_to_list in Hkv. simpl.
  eapply printLog_is_Some, Hcnt, Hkv.
Qed.

(** Every entry of the table is printed by [printLogs]. *)
Lemma printLogs_entry (a : conf) (stats : gmap string logEntry) (out : list LogRecord)
    (k : string) (v : logEntry) :
  printLogs a stats = Some out ->
  stats !! k = Some v ->
  exists rec, printLog "api_logger v1" v a = Some rec /\ rec ∈ out.
Proof.
  intros Hout Hkv. apply printLogs_Some in Hout.
  apply elem_of_map_to_list in Hkv.
  apply list_elem_of_lookup in Hkv as [i Hi].
  destruct (Forall2_lookup_l _ _ _ _ _ Hout Hi) as (rec & Hrec & Hp).
  exists rec. split; [exact Hp|]. apply list_elem_of_lookup. eauto.
Qed.

(** Every record emitted by [printLogs] is the [printLog] of an entry. *)
Lemma printLogs_from_entry (a : conf) (stats : gmap string logEntry)
    (out : list LogRecord) (rec : LogRecord) :
  printLogs a stats = Some out ->
  rec ∈ out ->
  exists k v, stats !! k = Some v /\ printLog "api_logger v1" v a = Some rec.
Proof.
  intros Hout Hrec. apply printLogs_Some in Hout.
  apply list_elem_of_lookup in Hrec as [i Hi].
  destruct (Forall2_lookup_r _ _ _ _ _ Hout Hi) as ([k v] & Hkv & Hp).
  exists k, v. split; [|exact Hp].
  apply elem_of_map_to_list. apply list_elem_of_lookup. eauto.
Qed.

Lemma printLogs_length (a : conf) (stats : gmap string logEntry) (out : list LogRecord) :
  printLogs a stats = Some out -> length out = size stats.
Proof.
  intros Hout. apply printLogs_Some in Hout.
  apply Forall2_length in Hout. rewrite <- Hout. apply length_map_to_list.
Qed.

(** ** The iterations of the goroutine *)

Lemma iterations_app (a : conf) (evs1 evs2 : list event) (s : loop) :
  iterations a (evs1 ++ evs2) s =
  r1 ← iterations a evs1 s;
  r2 ← iterations a evs2 r1.1;
  Some (r2.1, r1.2 ++ r2.2).
Proof.
  revert s. induction evs1 as [|ev evs1 IH]; intros s; simpl.
  - destruct (iterations a evs2 s) as [[s2 o2]|]; reflexivity.
  - destruct (iteration a ev s) as [[s1 o1]|]; simpl; [|reflexivity].
    rewrite IH. destruct (iterations a evs1 s1) as [[s1' o1']|]; simpl; [|reflexivity].
    destruct (iterations a evs2 s1') as [[s2 o2]|]; simpl; [|reflexivity].
    by rewrite app_assoc.
Qed.

(** Receiving the records of a window emits nothing and leaves the table
    [receive_all] computes. *)
Lemma iterations_receive (a : conf) (win : list arrival) (s : loop) :
  iterations a (map recv_event win) s =
  Some ({| logEntries := receive_all a win (logEntries s); stopped := stopped s |}, []).
Proof.
  revert s. induction win as [|x win IH]; intros s; simpl.
  - by destruct s.
  - rewrite IH. reflexivity.
Qed.

(** A flush emits the table and leaves an empty one. *)
Lemma iteration_flush (a : conf) (ev : event) (s s' : loop) (out : list LogRecord) :
  is_flush ev ->
  iteration a ev s = Some (s', out) ->
  printLogs a (logEntries s) = Some out /\ logEntries s' = ∅.
Proof.
  intros [-> | ->]; simpl; destruct (printLogs a (logEntries s)); simpl;
    intros [= <- <-]; done.
Qed.

Lemma iteration_flush_Some (a : conf) (ev : event) (s : loop) (out : list LogRecord) :
  is_flush ev ->
  printLogs a (logEntries s) = Some out ->
  exists s', iteration a ev s = Some (s', out) /\ logEntries s' = ∅.
Proof. intros [-> | ->] Hp; simpl; rewrite Hp; simpl; eauto. Qed.

(** ** The invariant on [count] *)

Lemma table_counts_empty (n : Z) : table_counts n ∅.
Proof. intros k v Hkv. by rewrite lookup_empty in Hkv. Qed.

Lemma table_counts_mono (n m : Z) (tbl : gmap string logEntry) :
  n <= m -> table_counts n tbl -> table_counts m tbl.
Proof. intros Hnm Hc k v Hkv. specialize (Hc k v Hkv). lia. Qed.

Lemma newLogEntry_count (a : conf) (st : logEntry) (now now' : Time) :
  count (newLogEntry a st now now') = 0.
Proof. unfold newLogEntry. by destruct (botDetectorInfo a (ua st)). Qed.

Lemma receive_counts (a : conf) (st : logEntry) (now now' : Time) (n : Z)
    (tbl : gmap string logEntry) :
  0 <= n < int64_max ->
  table_counts n tbl -> table_counts (n + 1) (receive a st now now' tbl).
Proof.
  intros Hn Hc k v. destruct (decide (key st = k)) as [<-|Hk].
  - destruct (tbl !! key st) as [u|] eqn:Hu.
    + rewrite (receive_present _ _ _ _ _ u) by done. intros [= <-]. simpl.
      specialize (Hc _ _ Hu). rewrite wrap64_id; [lia|].
      unfold in_int64, int64_min, int64_max in *. lia.
    + rewrite receive_fresh by done. intros [= <-]. simpl.
      rewrite newLogEntry_count. change (wrap64 (0 + 1)) with 1. lia.
  - rewrite receive_other by done. intros Hkv. specialize (Hc k v Hkv). lia.
Qed.

Lemma table_counts_nonzero (n : Z) (tbl : gmap string logEntry) :
  table_counts n tbl -> forall k v, tbl !! k = Some v -> count v <> 0.
Proof. intros Hc k v Hkv. specialize (Hc k v Hkv). lia. Qed.

(** Whatever case is selected, an iteration on a table whose counts lie
    between 1 and [n] does not panic and leaves one whose counts lie between
    1 and [n + 1]. *)
Lemma iteration_counts (a : conf) (ev : event) (s : loop) (n : Z) :
  0 <= n < int64_max ->
  table_counts n (logEntries s) ->
  exists s' out,
    iteration a ev s = Some (s', out) /\ table_counts (n + 1) (logEntries s').
Proof.
  intros Hn Hc. destruct ev as [| |st now now']; simpl.
  - destruct (printLogs_is_Some a (logEntries s) (table_counts_nonzero _ _ Hc))
      as [out ->]. simpl. do 2 eexists. split; [reflexivity|].
    apply table_counts_empty.
  - destruct (printLogs_is_Some a (logEntries s) (table_counts_nonzero _ _ Hc))
      as [out ->]. simpl. do 2 eexists. split; [reflexivity|].
    apply table_counts_empty.
  - do 2 eexists. split; [reflexivity|]. simpl. by apply receive_counts.
Qed.

Lemma iterations_counts (a : conf) (evs : list event) (s : loop) (n : Z) :
  0 <= n ->
  n + Z.of_nat (length evs) <= int64_max ->
  table_counts n (logEntries s) ->
  exists s' out,
    iterations a evs s = Some (s', out) /\
    table_counts (n + Z.of_nat (length evs)) (logEntries s').
Proof.
  revert s n. induction evs as [|ev evs IH]; intros s n Hn Hlen Hc.
  - exists s, []. split; [reflexivity|]. simpl. by rewrite Z.add_0_r.
  - simpl length in *. rewrite Nat2Z.inj_succ in *.
    destruct (iteration_counts a ev s n) as (s1 & o1 & Hit & Hc1); [lia|done|].
    destruct (IH s1 (n + 1)) as (s2 & o2 & Hits & Hc2); [lia|lia|done|].
    exists s2, (o1 ++ o2). split.
    + simpl. rewrite Hit. simpl. rewrite Hits. reflexivity.
    + by replace (n + Z.succ (Z.of_nat (length evs)))
        with (n + 1 + Z.of_nat (length evs)) by lia.
Qed.

Lemma quot_between (x y : Z) :
  1 <= y -> (0 <= x -> 0 <= Z.quot x y <= x) /\ (x <= 0 -> x <= Z.quot x y <= 0).
Proof.
  intros Hy. split; intros Hx.
  - pose proof (Z.quot_rem' x y) as E.
    pose proof (Z.rem_bound_pos x y ltac:(lia) ltac:(lia)).
    pose proof (Z.quot_pos x y ltac:(lia) ltac:(lia)). nia.
  - replace x with (- (- x)) by lia. rewrite Z.quot_opp_l by lia.
    pose proof (Z.quot_rem' (- x) y) as E.
    pose proof (Z.rem_bound_pos (- x) y ltac:(lia) ltac:(lia)).
    pose proof (Z.quot_pos (- x) y ltac:(lia) ltac:(lia)). nia.
Qed.

Lemma quot_in_int64 (x y : Z) : in_int64 x -> 1 <= y -> in_int64 (Z.quot x y).
Proof.
  unfold in_int64, int64_min, int64_max. intros Hx Hy.
  destruct (quot_between x y Hy) as [Hpos Hneg].
  destruct (Z_le_gt_dec 0 x); [specialize (Hpos ltac:(lia)) | specialize (Hneg ltac:(lia))]; lia.
Qed.

(** The table a window leaves, when the window has at most [int64_max]
    records, has counts between 1 and the length of the window. *)
Lemma receive_all_counts (a : conf) (win : list arrival) :
  Z.of_nat (length win) <= int64_max ->
  table_counts (Z.of_nat (length win)) (receive_all a win ∅).
Proof.
  intros Hlen.
  destruct (iterations_counts a (map recv_event win) (fresh_window false) 0)
    as (s' & out & Hits & Hc).
  - lia.
  - rewrite length_map. lia.
  - apply table_counts_empty.
  - rewrite iterations_receive in Hits. injection Hits as <- <-.
    rewrite length_map in Hc. exact Hc.
Qed.

(** ** The summary of a window *)

(** C3. For a window in which the records [with_key K win] of the grouping
    key [K] (N of them, N >= 1, latencies L1..LN) were merged, the flush that
    ends the window emits one record per accumulator of the table, and the
    one for [K] has counter N, minLatency the least and maxLatency the
    greatest of the Li, and meanLatency the sum of the Li divided by N,
    computed from sumLatency and count at emission.  The window has at most
    2^63 - 1 records and the sum of the Li is within the range of a
    Duration. *)
Theorem window_latency_summary (a : conf) (b : bool) (win : list arrival)
    (flush : event) (K : string) :
  is_flush flush ->
  with_key K win <> [] ->
  Z.of_nat (length win) <= int64_max ->
  in_int64 (sum (latencies (with_key K win))) ->
  exists s' out v rec,
    iterations a (map recv_event win ++ [flush]) (fresh_window b) = Some (s', out) /\
    receive_all a win ∅ !! K = Some v /\
    Forall2 (fun (kv : string * logEntry) r => printLog "api_logger v1" kv.2 a = Some r)
            (map_to_list (receive_all a win ∅)) out /\
    length out = size (receive_all a win ∅) /\
    printLog "api_logger v1" v a = Some rec /\
    rec ∈ out /\
    count v = Z.of_nat (length (with_key K win)) /\
    is_min (minLatency (aggregate v)) (latencies (with_key K win)) /\
    is_max (maxLatency (aggregate v)) (latencies (with_key K win)) /\
    sumLatency (aggregate v) = sum (latencies (with_key K win)) /\
    slog_Int "counter" (Z.of_nat (length (with_key K win))) ∈ Attrs rec /\
    slog_Duration "minLatency" (minLatency (aggregate v)) ∈ Attrs rec /\
    slog_Duration "maxLatency" (maxLatency (aggregate v)) ∈ Attrs rec /\
    slog_Duration "meanLatency"
      (Z.quot (sum (latencies (with_key K win)))
              (Z.of_nat (length (with_key K win)))) ∈ Attrs rec.
Proof.
  intros Hflush Hne Hlen Hsum.
  destruct (with_key K win) as [|x0 rs] eqn:Hw; [done|].
  destruct (receive_all_accumulates a K win ∅ x0 rs (lookup_empty K) Hw)
    as (v & Hv & [Hc Hs Hmin Hmax _] & Hsnap).
  pose proof (receive_all_counts a win Hlen) as Hcounts.
  assert (Hrs : Z.of_nat (length (x0 :: rs)) <= int64_max).
  { pose proof (length_filter (fun x => key (record_of x) = K) win) as Hf.
    fold (with_key K win) in Hf. rewrite Hw in Hf. lia. }
  assert (HN : 1 <= Z.of_nat (length (x0 :: rs))) by (simpl length; lia).
  assert (Hcount : count v = Z.of_nat (length (x0 :: rs))).
  { rewrite Hc. apply wrap64_id.
    unfold in_int64, int64_min, int64_max in *. lia. }
  assert (Hsl : sumLatency (aggregate v) = sum (latencies (x0 :: rs))).
  { rewrite Hs. by apply wrap64_id. }
  destruct (printLogs_is_Some a (receive_all a win ∅)
              (table_counts_nonzero _ _ Hcounts)) as [out Hout].
  destruct (printLogs_entry a _ out K v Hout Hv) as (rec & Hrec & Hin).
  assert (Hagg : isAggregate v = true).
  { destruct Hsnap as (_&_&_&_&_&_&_&_&_&_& -> &_).
    unfold newLogEntry. by destruct (botDetectorInfo a _). }
  assert (Hnz : count v <> 0) by lia.
  destruct (printLog_aggregate "api_logger v1" v a Hagg Hnz)
    as (rec' & Hrec' & _ & Hcnt & Hmean & Hmn & Hmx & _).
  rewrite Hrec in Hrec'. injection Hrec' as <-.
  destruct (iteration_flush_Some a flush
              {| logEntries := receive_all a win ∅; stopped := b |} out Hflush Hout)
    as (s' & Hit & _).
  exists s', out, v, rec. split_and!.
  - rewrite iterations_app, iterations_receive. simpl. rewrite Hit. simpl.
    by rewrite app_nil_r.
  - exact Hv.
  - by apply printLogs_Some.
  - exact (printLogs_length a _ _ Hout).
  - exact Hrec.
  - exact Hin.
  - exact Hcount.
  - exact Hmin.
  - exact Hmax.
  - exact Hsl.
  - by rewrite <- Hcount.
  - exact Hmn.
  - exact Hmx.
  - rewrite Hsl, Hcount in Hmean. rewrite wrap64_id in Hmean; [done|].
    by apply quot_in_int64.
Qed.

(** C6. Every accumulator in the table has count >= 1: each iteration of the
    loop preserves it, no run of fewer than 2^63 iterations from the start
    of the goroutine panics, so the division of sumLatency by count at
    emission never divides by zero, and the flush of an empty table emits
    no record and does not panic. *)
Theorem count_at_least_one (a : conf) :
  (forall ev s n,
     0 <= n < int64_max ->
     table_counts n (logEntries s) ->
     exists s' out,
       iteration a ev s = Some (s', out) /\ table_counts (n + 1) (logEntries s')) /\
  (forall evs,
     Z.of_nat (length evs) <= int64_max ->
     exists s out,
       iterations a evs loop_init = Some (s, out) /\
       forall k v, logEntries s !! k = Some v ->
         1 <= count v /\
         is_Some (go_div (sumLatency (aggregate v)) (count v)) /\
         is_Some (printLog "api_logger v1" v a)) /\
  (forall ev b,
     is_flush ev ->
     exists s', iteration a ev (fresh_window b) = Some (s', []) /\ logEntries s' = ∅).
Proof.
  split; [|split].
  - intros ev s n Hn Hc. by apply iteration_counts.
  - intros evs Hlen.
    destruct (iterations_counts a evs loop_init 0) as (s & out & Hits & Hc).
    + lia.
    + lia.
    + apply table_counts_empty.
    + exists s, out. split; [done|]. intros k v Hkv.
      specialize (Hc k v Hkv). split; [lia|]. split.
      * rewrite go_div_Some by lia. eauto.
      * apply printLog_is_Some. lia.
  - intros ev b Hf. apply iteration_flush_Some; [done|]. apply printLogs_empty.
Qed.

(** ** Windows *)

(** C5. After every flush, by the ticker or by the cancellation, in a run of
    the goroutine, the table is the empty table, and the next record
    received, whatever its key, gets a new accumulator made from that record
    alone, with count 1: nothing of the previous window is continued. *)
Theorem flush_starts_fresh_window (a : conf) (evs : list event) (ev : event)
    (st : logEntry) (now now' : Time) :
  is_flush ev ->
  Z.of_nat (length evs) < int64_max ->
  exists s out0 s' out v,
    iterations a evs loop_init = Some (s, out0) /\
    iteration a ev s = Some (s', out) /\
    logEntries s' = ∅ /\
    receive a st now now' (logEntries s') = {[ key st := v ]} /\
    v = updateStats (newLogEntry a st now now') st /\
    count v = 1 /\
    created v = now.
Proof.
  intros Hflush Hlen.
  destruct (iterations_counts a evs loop_init 0) as (s & out0 & Hits & Hc);
    [lia | lia | apply table_counts_empty |].
  destruct (printLogs_is_Some a (logEntries s) (table_counts_nonzero _ _ Hc))
    as [out Hout].
  destruct (iteration_flush_Some a ev s out Hflush Hout) as (s' & Hit & Hempty).
  exists s, out0, s', out, (updateStats (newLogEntry a st now now') st).
  split_and!; try done.
  - rewrite Hempty. unfold receive. rewrite lookup_empty. apply insert_empty.
  - simpl. by rewrite newLogEntry_count.
  - simpl. unfold newLogEntry. by destruct (botDetectorInfo a (ua st)).
Qed.

(** ** The identity snapshot *)

Lemma receive_all_snapshot (a : conf) (win : list arrival)
    (tbl : gmap string logEntry) (K : string) (v : logEntry) :
  tbl !! K = Some v ->
  exists v', receive_all a win tbl !! K = Some v' /\ same_snapshot v v'.
Proof.
  intros Hv. induction win as [|x win IH] using rev_ind.
  - exists v. split; [done | apply same_snapshot_refl].
  - destruct IH as (u & Hu & Hsnap). rewrite receive_all_snoc.
    destruct (decide (key (record_of x) = K)) as [<-|Hk].
    + rewrite (receive_present _ _ _ _ _ u) by done.
      eexists; split; [reflexivity|].
      eapply same_snapshot_trans; [exact Hsnap | apply updateStats_snapshot].
    + rewrite receive_other by done. eauto.
Qed.

(** C7. The identity snapshot of an accumulator (ip, user agent, method,
    protocol, aggregated path, status code, the two bot-detection fields,
    creation time) is taken from the record that creates it, and no later
    merge into the table changes it: of the accumulator of that key, only
    count, sumLatency, minLatency, maxLatency and sumSizeRespoBody can
    differ afterwards. *)
Theorem snapshot_recorded_once (a : conf) (st : logEntry) (now now' : Time)
    (win : list arrival) (tbl : gmap string logEntry) :
  tbl !! key st = None ->
  exists v v',
    receive a st now now' tbl !! key st = Some v /\
    created v = now /\
    grouping_fields v = grouping_fields st /\
    (isBotDetectorEnabled v, isBot v) = botDetectorInfo a (ua st) /\
    receive_all a win (receive a st now now' tbl) !! key st = Some v' /\
    same_snapshot v v'.
Proof.
  intros Hfresh.
  pose proof (receive_fresh a st now now' tbl Hfresh) as Hv.
  destruct (receive_all_snapshot a win _ _ _ Hv) as (v' & Hv' & Hsnap).
  exists (updateStats (newLogEntry a st now now') st), v'.
  split_and!; try done;
    unfold grouping_fields, newLogEntry;
    by destruct (botDetectorInfo a (ua st)).
Qed.

(** ** Bot detection *)

Lemma stamped_new (a : conf) (st : logEntry) (now now' : Time) :
  stamped a (updateStats (newLogEntry a st now now') st).
Proof.
  unfold stamped, newLogEntry, botDetectorInfo.
  destruct (botDetectionService a) as [f|]; simpl; split_and!; try done.
Qed.

Lemma stamped_update (a : conf) (v st : logEntry) :
  stamped a v -> stamped a (updateStats v st).
Proof. unfold stamped. simpl. tauto. Qed.

Lemma table_stamped_empty (a : conf) : table_stamped a ∅.
Proof. intros k v Hkv. by rewrite lookup_empty in Hkv. Qed.

Lemma receive_stamped (a : conf) (st : logEntry) (now now' : Time)
    (tbl : gmap string logEntry) :
  table_stamped a tbl -> table_stamped a (receive a st now now' tbl).
Proof.
  intros Hs k v. destruct (decide (key st = k)) as [<-|Hk].
  - destruct (tbl !! key st) as [u|] eqn:Hu.
    + rewrite (receive_present _ _ _ _ _ u) by done. intros [= <-].
      eapply stamped_update, Hs, Hu.
    + rewrite receive_fresh by done. intros [= <-]. apply stamped_new.
  - rewrite receive_other by done. apply Hs.
Qed.

(** In a run from a table of stamped accumulators, the table stays so and
    every record emitted is the [printLog] of a stamped accumulator. *)
Lemma iterations_stamped (a : conf) (evs : list event) (s s' : loop)
    (out : list LogRecord) :
  table_stamped a (logEntries s) ->
  iterations a evs s = Some (s', out) ->
  table_stamped a (logEntries s') /\
  forall rec, rec ∈ out ->
    exists v, stamped a v /\ printLog "api_logger v1" v a = Some rec.
Proof.
  revert s s' out. induction evs as [|ev evs IH]; intros s s' out Hs; simpl.
  - intros [= <- <-]. split; [done|]. intros rec Hin. by apply elem_of_nil in Hin.
  - destruct (iteration a ev s) as [[s1 o1]|] eqn:Hit; simpl; [|done].
    destruct (iterations a evs s1) as [[s2 o2]|] eqn:Hits; simpl; [|done].
    intros [= <- <-].
    assert (Hs1 : table_stamped a (logEntries s1) /\
                  forall rec, rec ∈ o1 ->
                    exists v, stamped a v /\ printLog "api_logger v1" v a = Some rec).
    { destruct ev as [| |st now now']; simpl in Hit.
      - destruct (printLogs a (logEntries s)) as [o|] eqn:Hp; simpl in Hit; [|done].
        injection Hit as <- <-. split; [apply table_stamped_empty|].
        intros rec Hin.
        destruct (printLogs_from_entry a _ _ _ Hp Hin) as (k & v & Hkv & Hrec).
        exists v. split; [eapply Hs, Hkv | done].
      - destruct (printLogs a (logEntries s)) as [o|] eqn:Hp; simpl in Hit; [|done].
        injection Hit as <- <-. split; [apply table_stamped_empty|].
        intros rec Hin.
        destruct (printLogs_from_entry a _ _ _ Hp Hin) as (k & v & Hkv & Hrec).
        exists v. split; [eapply Hs, Hkv | done].
      - injection Hit as <- <-. split; [by apply receive_stamped|].
        intros rec Hin. by apply elem_of_nil in Hin. }
    destruct Hs1 as [Hs1 Ho1].
    destruct (IH s1 s2 o2 Hs1 Hits) as [Hs2 Ho2].
    split; [done|]. intros rec [Hin|Hin]%elem_of_app; auto.
Qed.

Lemma extra_attrs_String (x : Attr) (m : gmap string extraFields) :
  x ∈ flat_map
        (fun kv : string * extraFields =>
           if found kv.2 then [slog_String kv.1 (value kv.2)] else [])
        (map_to_list m) ->
  exists k s, x = slog_String k s.
Proof.
  intros Hin. apply list_elem_of_In, in_flat_map in Hin as ([k e] & _ & Hin).
  simpl in Hin. destruct (found e); [|done].
  destruct Hin as [<-|[]]. eauto.
Qed.

Lemma static_attrs_String (x : Attr) (m : gmap string string) :
  x ∈ map (fun kv : string * string => slog_String kv.1 kv.2) (map_to_list m) ->
  exists k s, x = slog_String k s.
Proof.
  intros Hin. apply list_elem_of_In, in_map_iff in Hin as ([k e] & <- & _). eauto.
Qed.

(** No [slog.Int] attribute of [printLog] is named isBot unless the entry
    has [isBotDetectorEnabled]. *)
Lemma printLog_no_isBot (msg : string) (v : logEntry) (c : conf) (rec : LogRecord) :
  isBotDetectorEnabled v = false ->
  printLog msg v c = Some rec ->
  forall z, slog_Int "isBot" z ∉ Attrs rec.
Proof.
  intros Hbot Hrec z Hin. unfold printLog in Hrec. rewrite Hbot in Hrec.
  destruct (isAggregate v);
    [destruct (go_div (sumLatency (aggregate v)) (count v)); [|done]|];
    cbn [mbind option_bind] in Hrec; injection Hrec as <-; cbn [Attrs] in Hin;
    repeat match type of Hin with
           | context [if ?b then _ else _] => destruct b
           end;
    repeat (apply elem_of_app in Hin as [Hin|Hin]);
    repeat (apply elem_of_cons in Hin as [Hin|Hin]; [discriminate Hin|]);
    try (by apply elem_of_nil in Hin);
    try (apply extra_attrs_String in Hin as (k & s & Hin); discriminate Hin);
    try (apply static_attrs_String in Hin as (k & s & Hin); discriminate Hin).
Qed.

Lemma printLog_isBot (msg : string) (v : logEntry) (c : conf) (rec : LogRecord) :
  isBotDetectorEnabled v = true ->
  printLog msg v c = Some rec ->
  slog_Int "isBot" (isBot v) ∈ Attrs rec /\ slog_String "ua" (ua v) ∈ Attrs rec.
Proof.
  intros Hbot Hrec. unfold printLog in Hrec. rewrite Hbot in Hrec.
  destruct (isAggregate v);
    [destruct (go_div (sumLatency (aggregate v)) (count v)); [|done]|];
    cbn [mbind option_bind] in Hrec; injection Hrec as <-; cbn [Attrs];
    split; attrs_mem.
Qed.

(** C8. Without a bot detector in the configuration, no record the
    goroutine emits has the isBot attribute of [slog.Int].  With a detector,
    every accumulator has isBotDetectorEnabled = true and isBot = 1 exactly
    when [IsBot] holds of its user agent, the pair being the result of
    [botDetectorInfo] on the user agent of the record that created the
    accumulator, and every record emitted carries that isBot. *)
Theorem bot_flag_follows_detector (a : conf) (evs : list event) :
  Z.of_nat (length evs) <= int64_max ->
  exists s out,
    iterations a evs loop_init = Some (s, out) /\
    (botDetectionService a = None ->
       (forall userAgent, botDetectorInfo a userAgent = (false, 0)) /\
       forall rec z, rec ∈ out -> slog_Int "isBot" z ∉ Attrs rec) /\
    (forall IsBot, botDetectionService a = Some IsBot ->
       (forall userAgent,
          botDetectorInfo a userAgent = (true, if IsBot userAgent then 1 else 0)) /\
       (forall k v, logEntries s !! k = Some v ->
          isBotDetectorEnabled v = true /\
          (isBot v = 1 <-> IsBot (ua v) = true) /\
          (isBotDetectorEnabled v, isBot v) = botDetectorInfo a (ua v)) /\
       (forall rec, rec ∈ out ->
          exists userAgent,
            slog_String "ua" userAgent ∈ Attrs rec /\
            slog_Int "isBot" (if IsBot userAgent then 1 else 0) ∈ Attrs rec)).
Proof.
  intros Hlen.
  destruct (iterations_counts a evs loop_init 0) as (s & out & Hits & _);
    [lia | lia | apply table_counts_empty |].
  destruct (iterations_stamped a evs loop_init s out (table_stamped_empty a) Hits)
    as [Hs Hout].
  exists s, out. split; [done|]. split.
  - intros Hnone. split.
    + intros userAgent. unfold botDetectorInfo. by rewrite Hnone.
    + intros rec z Hin. destruct (Hout rec Hin) as (v & (_ & _ & Hen & _) & Hrec).
      rewrite Hnone in Hen. eapply printLog_no_isBot; [|exact Hrec].
      rewrite Hen. apply bool_decide_eq_false. by intros [? [=]].
  - intros IsBot Hsome. split_and!.
    + intros userAgent. unfold botDetectorInfo. by rewrite Hsome.
    + intros k v Hkv. destruct (Hs k v Hkv) as (_ & _ & Hen & Hb).
      rewrite Hsome in Hen, Hb.
      assert (Hen' : isBotDetectorEnabled v = true).
      { rewrite Hen. apply bool_decide_eq_true. eauto. }
      split_and!; [done | |].
      * rewrite Hb. destruct (IsBot (ua v)); split; done.
      * unfold botDetectorInfo. by rewrite Hsome, Hen', Hb.
    + intros rec Hin. destruct (Hout rec Hin) as (v & (_ & _ & Hen & Hb) & Hrec).
      rewrite Hsome in Hen, Hb.
      assert (Hen' : isBotDetectorEnabled v = true).
      { rewrite Hen. apply bool_decide_eq_true. eauto. }
      destruct (printLog_isBot _ _ _ _ Hen' Hrec) as [Hi Hu].
      exists (ua v). rewrite <- Hb. done.
Qed.

(** ** The queue *)





(** ** Excluded paths *)

(** C10. For a request whose URL path is one of the excluded paths, the
    handler of [Middleware] runs the rest of the chain and returns: no record
    is built, nothing is given to the logging handler, nothing is sent to
    the queue, no warning is given; the queue and the table are as they
    were. *)
Theorem excluded_path_untouched (a : conf) (Next : ginContext -> ginContext)
    (start end_ : Time) (c : ginContext) (w : world) :
  URL_Path (Request c) ∈ excludedPaths a ->
  Middleware a Next start end_ c w = Some (Next c, w).
Proof.
  intros Hin. unfold Middleware.
  rewrite bool_decide_eq_true_2; [reflexivity|].
  unfold skipPaths. by apply elem_of_list_to_set.
Qed.

(** For comparison, a request on any other path, with aggregation enabled:
    a record is built after the chain has run and given to [send]. *)
Lemma other_path_sent (a : conf) (Next : ginContext -> ginContext)
    (start end_ : Time) (c : ginContext) (w : world) :
  URL_Path (Request c) ∉ excludedPaths a ->
  isAggregationEnabled a = true ->
  exists l,
    Middleware a Next start end_ c w = Some (Next c, send l w) /\
    isAggregate l = true /\
    statusCode l = Writer_Status (Next c) /\
    latency (realtime l) = Time_Sub end_ start.
Proof.
  intros Hnin Hagg. unfold Middleware.
  rewrite bool_decide_eq_false_2.
  - rewrite Hagg. eexists. split; [reflexivity|]. done.
  - unfold skipPaths. by rewrite elem_of_list_to_set.
Qed.

End Properties.

(** ** The scenario of the queue of capacity 2 *)

Example Itoa_examples : Itoa 200 = "200" /\ Itoa 0 = "0" /\ Itoa (-7) = "-7".
Proof. by vm_compute. Qed.

Example sample_key_is_key :
  key sample_r1 = sample_key /\ key sample_r2 = sample_key /\ key sample_r3 = sample_key.
Proof. by vm_compute. Qed.

(** Three records are sent to a new logger whose queue has capacity 2 while
    the goroutine does not run: the first two are queued, the third is
    dropped with a warning. *)
Example third_record_dropped :
  exists w0,
    New sample_aggregating = Some w0 /\
    send sample_r3 (send sample_r2 (send sample_r1 w0)) =
    {| cancelled := false;
       queue := Some {| buf := [sample_r1; sample_r2]; cap := 2 |};
       goroutine := loop_init;
       sink := [];
       warnings := ["stats loggingHandler queue channel is full"] |}.
Proof. eexists. split; by vm_compute. Qed.

(** ** The grouping key *)

(** C9. Two records whose grouping fields differ (here in user agent and
    aggregated path) can have the same key: the fields are joined with
    underscores, and a field that contains the separator moves the
    boundaries. *)
Theorem key_collision :
  exists st1 st2 : logEntry,
    grouping_fields st1 <> grouping_fields st2 /\ key st1 = key st2.
Proof.
  exists collide1, collide2. split.
  - vm_compute. discriminate.
  - vm_compute. reflexivity.
Qed.

(** ** The response sizes of a window *)

(** The sum a window leaves for the key [K]: the size of the first record
    of the key is in it twice, once from [newLogEntry] and once from
    [updateStats]. *)
Lemma window_sumSize (a : conf) (win : list arrival) (K : string)
    (x0 : arrival) (rs : list arrival) :
  with_key K win = x0 :: rs ->
  exists v,
    receive_all a win ∅ !! K = Some v /\
    sumSizeRespoBody (aggregate v) =
    wrap64 (responseBodySize (realtime (record_of x0)) + sum (sizes (x0 :: rs))).
Proof.
  intros Hw.
  destruct (receive_all_accumulates a K win ∅ x0 rs (lookup_empty K) Hw)
    as (v & Hv & [_ _ _ _ Hsz] & _).
  exists v. split; [done|]. exact Hsz.
Qed.

(** C1. Two records of one key with sizes 100 and 200 are merged and the
    ticker fires: the one record emitted has counter 2, sumSizeRespBody 400
    and meanSizeRespBody 200, not 300 and 150. *)
Theorem first_response_size_counted_twice :
  @iterations sample_External sample_aggregating
    (map recv_event sample_window ++ [t_C]) loop_init =
  Some (fresh_window false,
        [sample_summary 1 2 (35 * ms) (20 * ms) (50 * ms) (400 # 2) 400]) /\
  sum (sizes sample_window) = 300 /\
  Qeq (400 # 2) (inject_Z 200).
Proof. split_and!; by vm_compute. Qed.

(** ** Shutdown *)

(** Once the context is cancelled the case [ctx.Done()] can be chosen in
    every state the goroutine reaches: the loop has no last iteration. *)
Lemma step_after_cancel `{External} (a : conf) (w : world) (n : Z) :
  is_Some (queue w) ->
  cancelled w = true ->
  table_counts n (logEntries (goroutine w)) ->
  exists w', step a w w' /\ is_Some (queue w') /\ cancelled w' = true.
Proof.
  intros Hq Hc Ht.
  destruct (printLogs_is_Some a _ (table_counts_nonzero _ _ Ht)) as [out Hout].
  eexists. split_and!.
  - eapply (step_iteration _ _ ctx_Done); [done | by apply ready_Done |].
    simpl. rewrite Hout. reflexivity.
  - exact Hq.
  - exact Hc.
Qed.

(** C2. The context is cancelled while one record is merged and another is
    still in the queue.  The goroutine takes the case [ctx.Done()], stops
    the ticker and flushes; it then goes on: it receives the queued record,
    merges it, and flushes a second time. *)
Theorem loop_continues_after_shutdown :
  exists w1 w2 w3,
    @step sample_External sample_aggregating sample_shutdown w1 /\
    stopped (goroutine w1) = true /\
    logEntries (goroutine w1) = ∅ /\
    sink w1 = [sample_summary 1 1 (50 * ms) (50 * ms) (50 * ms) (200 # 1) 200] /\
    @step sample_External sample_aggregating w1 w2 /\
    queue w2 = Some {| buf := []; cap := 2 |} /\
    is_Some (logEntries (goroutine w2) !! sample_key) /\
    @step sample_External sample_aggregating w2 w3 /\
    sink w3 = [sample_summary 1 1 (50 * ms) (50 * ms) (50 * ms) (200 # 1) 200;
               sample_summary 2 1 (20 * ms) (20 * ms) (20 * ms) (400 # 1) 400].
Proof.
  eexists _, _, _. split_and!.
  - eapply (step_iteration _ _ ctx_Done).
    + by eexists.
    + by apply ready_Done.
    + vm_compute. reflexivity.
  - reflexivity.
  - reflexivity.
  - by vm_compute.
  - eapply (step_iteration _ _ (queue_recv sample_r2 2 2)).
    + by eexists.
    + by eapply ready_recv.
    + vm_compute. reflexivity.
  - by vm_compute.
  - vm_compute. eauto.
  - eapply (step_iteration _ _ ctx_Done).
    + by eexists.
    + by apply ready_Done.
    + vm_compute. reflexivity.
  - by vm_compute.
Qed.

(** ** Instances *)

Lemma window_latency_summary_witness :
  is_flush t_C /\
  with_key sample_key sample_window <> [] /\
  Z.of_nat (length sample_window) <= int64_max /\
  in_int64 (sum (latencies (with_key sample_key sample_window))) /\
  exists s' out rec,
    @iterations sample_External sample_aggregating
      (map recv_event sample_window ++ [t_C]) (fresh_window false) = Some (s', out) /\
    rec ∈ out /\
    slog_Int "counter" 2 ∈ Attrs rec /\
    slog_Duration "meanLatency" (35 * ms) ∈ Attrs rec.
Proof.
  assert (H1 : is_flush t_C) by (by left).
  assert (H2 : with_key sample_key sample_window <> []) by (by vm_compute).
  assert (H3 : Z.of_nat (length sample_window) <= int64_max) by (by vm_compute).
  assert (H4 : in_int64 (sum (latencies (with_key sample_key sample_window))))
    by (split; by vm_compute).
  split_and!; try assumption.
  destruct (@window_latency_summary sample_External sample_aggregating false
              sample_window t_C sample_key H1 H2 H3 H4)
    as (s' & out & v & rec & Hits & _ & _ & _ & _ & Hin & _ & _ & _ & _ & Hc & _ & _ & Hm).
  exists s', out, rec. split_and!; assumption.
Defined.

Lemma count_at_least_one_witness :
  Z.of_nat (length (map recv_event sample_window ++ [t_C])) <= int64_max /\
  exists s out,
    @iterations sample_External sample_aggregating
      (map recv_event sample_window ++ [t_C]) loop_init = Some (s, out).
Proof.
  assert (H1 : Z.of_nat (length (map recv_event sample_window ++ [t_C])) <= int64_max)
    by (by vm_compute).
  split; [assumption|].
  destruct (@count_at_least_one sample_External sample_aggregating) as (_ & Hrun & _).
  destruct (Hrun _ H1) as (s & out & Hits & _).
  exists s, out. assumption.
Defined.

Lemma flush_starts_fresh_window_witness :
  is_flush ctx_Done /\
  Z.of_nat (length (map recv_event sample_window)) < int64_max /\
  exists s' v,
    logEntries s' = ∅ /\
    receive sample_aggregating sample_r3 3 3 (logEntries s') = {[ key sample_r3 := v ]} /\
    count v = 1.
Proof.
  assert (H1 : is_flush ctx_Done) by (by right).
  assert (H2 : Z.of_nat (length (map recv_event sample_window)) < int64_max)
    by (by vm_compute).
  split_and!; try assumption.
  destruct (@flush_starts_fresh_window sample_External sample_aggregating
              (map recv_event sample_window) ctx_Done sample_r3 3 3 H1 H2)
    as (s & out0 & s' & out & v & _ & _ & He & Hr & _ & Hc & _).
  exists s', v. split_and!; assumption.
Defined.

Lemma snapshot_recorded_once_witness :
  (∅ : gmap string logEntry) !! key sample_r1 = None /\
  exists v v',
    receive sample_aggregating sample_r1 1 1 ∅ !! key sample_r1 = Some v /\
    receive_all sample_aggregating [(sample_r2, 2, 2); (sample_r3, 3, 3)]
      (receive sample_aggregating sample_r1 1 1 ∅) !! key sample_r1 = Some v' /\
    same_snapshot v v'.
Proof.
  assert (H1 : (∅ : gmap string logEntry) !! key sample_r1 = None)
    by apply lookup_empty.
  split; [assumption|].
  destruct (snapshot_recorded_once sample_aggregating sample_r1 1 1
              [(sample_r2, 2, 2); (sample_r3, 3, 3)] ∅ H1)
    as (v & v' & Hv & _ & _ & _ & Hv' & Hs).
  exists v, v'. split_and!; assumption.
Defined.

Lemma bot_flag_follows_detector_witness :
  Z.of_nat (length (map recv_event sample_window ++ [t_C])) <= int64_max /\
  exists s out,
    @iterations sample_External sample_detecting
      (map recv_event sample_window ++ [t_C]) loop_init = Some (s, out) /\
    forall rec, rec ∈ out ->
      exists userAgent,
        slog_String "ua" userAgent ∈ Attrs rec /\
        slog_Int "isBot" (if sample_IsBot userAgent then 1 else 0) ∈ Attrs rec.
Proof.
  assert (H1 : Z.of_nat (length (map recv_event sample_window ++ [t_C])) <= int64_max)
    by (by vm_compute).
  split; [assumption|].
  destruct (@bot_flag_follows_detector sample_External sample_detecting
              (map recv_event sample_window ++ [t_C]) H1)
    as (s & out & Hits & _ & Hsome).
  destruct (Hsome sample_IsBot eq_refl) as (_ & _ & Hout).
  exists s, out. split; assumption.
Defined.


Lemma excluded_path_untouched_witness :
  URL_Path (Request (sample_context "/health")) ∈ excludedPaths sample_excluding /\
  @Middleware sample_External sample_excluding sample_Next 5 9
    (sample_context "/health") sample_full =
  Some (sample_Next (sample_context "/health"), sample_full).
Proof.
  assert (H1 : URL_Path (Request (sample_context "/health"))
               ∈ excludedPaths sample_excluding) by (by left).
  split; [assumption|].
  exact (@excluded_path_untouched sample_External sample_excluding sample_Next 5 9
           (sample_context "/health") sample_full H1).
Defined.

(** * More properties of the engine *)

(** ** Keys do not mix *)

Lemma receive_lookup_congr (a : conf) (st : logEntry) (now now' : Time)
    (t1 t2 : gmap string logEntry) (K : string) :
  t1 !! K = t2 !! K ->
  receive a st now now' t1 !! K = receive a st now now' t2 !! K.
Proof.
  intros Heq. destruct (decide (key st = K)) as [<-|Hk].
  - unfold receive. by rewrite Heq, !lookup_insert_eq.
  - by rewrite !receive_other.
Qed.

(** The accumulator a window leaves for a key is the one the records of
    that key alone would leave: a record of another key never changes it. *)
Theorem keys_do_not_mix (a : conf) (win : list arrival)
    (tbl : gmap string logEntry) (K : string) :
  receive_all a win tbl !! K = receive_all a (with_key K win) tbl !! K.
Proof.
  induction win as [|x win IH] using rev_ind; [done|].
  rewrite with_key_snoc, receive_all_snoc.
  destruct (decide (key (record_of x) = K)) as [Hk|Hk].
  - rewrite receive_all_snoc. by apply receive_lookup_congr.
  - rewrite app_nil_r, receive_other by done. exact IH.
Qed.

(** The keys of the table after a window are the keys it had and the keys
    of the records received. *)
Lemma receive_all_dom (a : conf) (win : list arrival) (tbl : gmap string logEntry) :
  dom (receive_all a win tbl) = dom tbl ∪ keys_of win.
Proof.
  unfold keys_of. induction win as [|x win IH] using rev_ind.
  - simpl. by rewrite union_empty_r_L.
  - rewrite receive_all_snoc. unfold receive at 1. rewrite dom_insert_L, IH.
    rewrite map_app, list_to_set_app_L. simpl.
    rewrite union_empty_r_L.
    rewrite (comm_L (∪) {[ key (record_of x) ]}). by rewrite (assoc_L (∪)).
Qed.

(** ** Every record received is counted once *)

Lemma sum_app (l1 l2 : list Z) : sum (l1 ++ l2) = sum l1 + sum l2.
Proof. unfold sum. induction l1 as [|x l1 IH]; simpl; lia. Qed.

Lemma sum_Permutation (l1 l2 : list Z) : l1 ≡ₚ l2 -> sum l1 = sum l2.
Proof.
  unfold sum. induction 1 as [|x l l' _ IH|x y l|l l' l'' _ IH1 _ IH2]; simpl; lia.
Qed.

Lemma total_count_insert (tbl : gmap string logEntry) (k : string) (v : logEntry) :
  tbl !! k = None -> total_count (<[k := v]> tbl) = count v + total_count tbl.
Proof.
  intros Hk. unfold total_count.
  rewrite (sum_Permutation _ (map (fun kv : string * logEntry => count kv.2)
                                  ((k, v) :: map_to_list tbl))).
  - reflexivity.
  - apply Permutation_map. by apply map_to_list_insert.
Qed.

Lemma total_count_replace (tbl : gmap string logEntry) (k : string) (u v : logEntry) :
  tbl !! k = Some u ->
  total_count (<[k := v]> tbl) = total_count tbl - count u + count v.
Proof.
  intros Hk.
  rewrite <- (insert_delete_eq tbl k v).
  rewrite <- (insert_delete_id tbl k u Hk) at 2.
  rewrite !total_count_insert by apply lookup_delete_eq. lia.
Qed.

Lemma receive_total_count (a : conf) (st : logEntry) (now now' : Time) (n : Z)
    (tbl : gmap string logEntry) :
  0 <= n < int64_max ->
  table_counts n tbl ->
  total_count (receive a st now now' tbl) = total_count tbl + 1.
Proof.
  intros Hn Hc. unfold receive. destruct (tbl !! key st) as [u|] eqn:Hu.
  - rewrite (total_count_replace _ _ u) by done. simpl.
    specialize (Hc _ _ Hu). rewrite wrap64_id; [lia|].
    unfold in_int64, int64_min, int64_max in *. lia.
  - rewrite total_count_insert by done. simpl.
    rewrite newLogEntry_count. change (wrap64 (0 + 1)) with 1. lia.
Qed.

Lemma receive_all_counts_direct (a : conf) (win : list arrival) :
  Z.of_nat (length win) <= int64_max ->
  table_counts (Z.of_nat (length win)) (receive_all a win ∅) /\
  total_count (receive_all a win ∅) = Z.of_nat (length win).
Proof.
  induction win as [|x win IH] using rev_ind; intros Hlen.
  - split; [apply table_counts_empty | reflexivity].
  - rewrite length_app in *. simpl length in *.
    destruct IH as [Hc Ht]; [lia|].
    rewrite receive_all_snoc. split.
    + replace (Z.of_nat (length win + 1)) with (Z.of_nat (length win) + 1) by lia.
      apply receive_counts; [unfold int64_max in *; lia | done].
    + rewrite (receive_total_count _ _ _ _ (Z.of_nat (length win))); [lia| |done].
      unfold int64_max in *. lia.
Qed.

(** The counts of the accumulators of a window add up to the number of
    records received in it: every record is counted once, in the
    accumulator of its key.  The window has at most 2^63 - 1 records. *)
Theorem counts_add_up (a : conf) (win : list arrival) :
  Z.of_nat (length win) <= int64_max ->
  total_count (receive_all a win ∅) = Z.of_nat (length win).
Proof. intros Hlen. by apply receive_all_counts_direct. Qed.

(** ** The mean lies between the extremes *)

Lemma sum_between (l : list Z) (m M : Z) :
  (forall x, x ∈ l -> m <= x <= M) ->
  Z.of_nat (length l) * m <= sum l <= Z.of_nat (length l) * M.
Proof.
  induction l as [|y l IH]; intros Hb.
  - simpl. lia.
  - assert (Hy : m <= y <= M) by (apply Hb; by left).
    destruct IH as [IH1 IH2].
    { intros x Hx. apply Hb. by right. }
    simpl length. rewrite Nat2Z.inj_succ. unfold sum in *. simpl. nia.
Qed.

Lemma quot_between_bounds (s n m M : Z) :
  1 <= n -> n * m <= s <= n * M -> m <= Z.quot s n <= M.
Proof.
  intros Hn Hs. pose proof (Z.quot_rem' s n) as E.
  assert (Hr : (0 <= s -> 0 <= Z.rem s n < n) /\ (s < 0 -> - n < Z.rem s n <= 0)).
  { split; intros Hs0.
    - apply Z.rem_bound_pos; lia.
    - pose proof (Z.rem_bound_abs s n ltac:(lia)).
      pose proof (Z.rem_nonpos s n ltac:(lia) ltac:(lia)). lia. }
  destruct Hr as [Hr1 Hr2].
  split.
  - destruct (Z_le_gt_dec m (Z.quot s n)); [done|].
    assert (n * (Z.quot s n + 1) <= n * m) by (apply Z.mul_le_mono_nonneg_l; lia).
    destruct (Z_le_gt_dec 0 s);
      [specialize (Hr1 ltac:(lia)) | specialize (Hr2 ltac:(lia))]; lia.
  - destruct (Z_le_gt_dec (Z.quot s n) M); [done|].
    assert (n * (M + 1) <= n * Z.quot s n) by (apply Z.mul_le_mono_nonneg_l; lia).
    destruct (Z_le_gt_dec 0 s);
      [specialize (Hr1 ltac:(lia)) | specialize (Hr2 ltac:(lia))]; lia.
Qed.

(** In the accumulator a window leaves for a key, the mean latency that
    [printLog] computes, sumLatency / count, lies between minLatency and
    maxLatency.  The window has at most 2^63 - 1 records and the sum of the
    latencies of the key is within the range of a Duration. *)
Theorem mean_between_extremes (a : conf) (win : list arrival) (K : string) :
  with_key K win <> [] ->
  Z.of_nat (length win) <= int64_max ->
  in_int64 (sum (latencies (with_key K win))) ->
  exists v,
    receive_all a win ∅ !! K = Some v /\
    minLatency (aggregate v) <= maxLatency (aggregate v) /\
    go_div (sumLatency (aggregate v)) (count v) =
      Some (Z.quot (sumLatency (aggregate v)) (count v)) /\
    minLatency (aggregate v) <= Z.quot (sumLatency (aggregate v)) (count v)
      <= maxLatency (aggregate v).
Proof.
  intros Hne Hlen Hsum.
  destruct (with_key K win) as [|x0 rs] eqn:Hw; [done|].
  destruct (receive_all_accumulates a K win ∅ x0 rs (lookup_empty K) Hw)
    as (v & Hv & [Hc Hs [Hmin_in Hmin] [Hmax_in Hmax] _] & _).
  assert (Hrs : Z.of_nat (length (x0 :: rs)) <= int64_max).
  { pose proof (length_filter (fun x => key (record_of x) = K) win) as Hf.
    fold (with_key K win) in Hf. rewrite Hw in Hf. lia. }
  assert (HN : 1 <= Z.of_nat (length (x0 :: rs))) by (simpl length; lia).
  rewrite wrap64_id in Hc by (unfold in_int64, int64_min, int64_max in *; lia).
  rewrite wrap64_id in Hs by done.
  pose proof (sum_between (latencies (x0 :: rs)) _ _
                (fun x Hx => conj (Hmin x Hx) (Hmax x Hx))) as Hb.
  unfold latencies in Hb at 1 4. rewrite length_map in Hb.
  assert (Hq : minLatency (aggregate v)
               <= Z.quot (sumLatency (aggregate v)) (count v)
               <= maxLatency (aggregate v)).
  { rewrite Hs, Hc. by apply quot_between_bounds. }
  exists v. split_and!; try done.
  - lia.
  - rewrite go_div_Some by lia. f_equal. apply wrap64_id.
    rewrite Hs, Hc. by apply quot_in_int64.
  - apply Hq.
  - apply Hq.
Qed.

(** ** Keys without underscores in the fields *)

Lemma append_separator_inj (a a' r r' : string) :
  no_underscore a = true -> no_underscore a' = true ->
  a +:+ "_" +:+ r = a' +:+ "_" +:+ r' -> a = a' /\ r = r'.
Proof.
  revert a'. induction a as [|c a IH]; intros [|c' a'] Ha Ha'; simpl in Ha, Ha'.
  - change (String "_" r = String "_" r' -> "" = "" /\ r = r').
    intros [= ->]. done.
  - change (String "_" r = String c' (a' +:+ "_" +:+ r') ->
            "" = String c' a' /\ r = r').
    intros [= <- _]. done.
  - change (String c (a +:+ "_" +:+ r) = String "_" r' ->
            String c a = "" /\ r = r').
    intros [= -> _]. done.
  - change (String c (a +:+ "_" +:+ r) = String c' (a' +:+ "_" +:+ r') ->
            String c a = String c' a' /\ r = r').
    intros [= <- Heq].
    apply andb_true_iff in Ha as [_ Ha]. apply andb_true_iff in Ha' as [_ Ha'].
    destruct (IH a' Ha Ha' Heq) as [-> ->]. done.
Qed.

Lemma string_of_uint_no_underscore (d : Decimal.uint) :
  no_underscore (NilEmpty.string_of_uint d) = true.
Proof. induction d; simpl; done. Qed.

Lemma Itoa_no_underscore (z : Z) : no_underscore (Itoa z) = true.
Proof.
  unfold Itoa. destruct (Z.to_int z) as [d|d]; simpl.
  - destruct d; simpl; try done; apply string_of_uint_no_underscore.
  - destruct d; simpl; try done; apply string_of_uint_no_underscore.
Qed.

Lemma Itoa_inj (z1 z2 : Z) : Itoa z1 = Itoa z2 -> z1 = z2.
Proof.
  assert (Hparse : forall z, NilZero.int_of_string (Itoa z) = Some (Z.to_int z)).
  { intros z. unfold Itoa. apply NilZero.isi.
    - destruct z; simpl; [done| |done].
      intros [= Hp]. by apply DecimalPos.Unsigned.to_uint_nonnil in Hp.
    - destruct z; simpl; [done|done|].
      intros [= Hp]. by apply DecimalPos.Unsigned.to_uint_nonnil in Hp. }
  intros Heq. apply (f_equal NilZero.int_of_string) in Heq.
  rewrite !Hparse in Heq. injection Heq as Heq.
  apply (f_equal Z.of_int) in Heq. by rewrite !DecimalZ.of_to in Heq.
Qed.

(** When the client address, the user agent, the method and the protocol of
    two records contain no underscore, equal keys mean equal grouping
    fields: the key is then an injective encoding of the six fields. *)
Theorem key_injective_without_underscores (st1 st2 : logEntry) :
  no_underscore (ip st1) = true -> no_underscore (ip st2) = true ->
  no_underscore (ua st1) = true -> no_underscore (ua st2) = true ->
  no_underscore (method st1) = true -> no_underscore (method st2) = true ->
  no_underscore (proto st1) = true -> no_underscore (proto st2) = true ->
  key st1 = key st2 ->
  grouping_fields st1 = grouping_fields st2.
Proof.
  intros Hi1 Hi2 Hu1 Hu2 Hm1 Hm2 Hp1 Hp2. unfold key, grouping_fields.
  intros Heq.
  apply append_separator_inj in Heq as [-> Heq]; [|done..].
  apply append_separator_inj in Heq as [Hs%Itoa_inj Heq];
    [|apply Itoa_no_underscore..].
  apply append_separator_inj in Heq as [-> Heq]; [|done..].
  apply append_separator_inj in Heq as [-> Heq]; [|done..].
  apply append_separator_inj in Heq as [-> Heq]; [|done..].
  change (String "_" (aggregatePath st1) = String "_" (aggregatePath st2)) in Heq.
  injection Heq as ->. by rewrite Hs.
Qed.

Lemma key_injective_without_underscores_witness :
  no_underscore (ip sample_r1) = true /\
  no_underscore (ua sample_r1) = true /\
  no_underscore (method sample_r1) = true /\
  no_underscore (proto sample_r1) = true /\
  key sample_r1 = key sample_r2 /\
  grouping_fields sample_r1 = grouping_fields sample_r2.
Proof.
  assert (Hk : key sample_r1 = key sample_r2) by (by vm_compute).
  refine (conj eq_refl (conj eq_refl (conj eq_refl (conj eq_refl (conj Hk _))))).
  exact (key_injective_without_underscores sample_r1 sample_r2
           eq_refl eq_refl eq_refl eq_refl eq_refl eq_refl eq_refl eq_refl Hk).
Defined.
